(** * MoltenFlake: PlayerBerry snowflake identifiers

    A shallow embedding of [packages/moltenflake] (the [MoltenFlake] class and
    its module-level [EPOCH] and [increment]) together with the properties of
    its specification.

    Conventions of the embedding:
    - a [bigint] is a [Z]; [<<], [>>], [|] and [&] on bigints are
      [Z.shiftl], [Z.shiftr], [Z.lor] and [Z.land] (two's complement on
      unbounded integers, as in ECMAScript);
    - a [number] is an IEEE 754 binary64 value, [spec_float] of the standard
      library with precision 53 and maximal exponent 1024; [Number(b)] rounds
      to nearest, ties to even, and [+], [-] and [Math.abs] are [SFadd],
      [SFsub] and [SFabs];
    - a string is a [string] whose characters are code units below 256;
    - the module variable [increment] is the state of a state-and-exception
      monad [M]; a [throw] is the [Thrown] outcome. *)

From Stdlib Require Import ZArith Lia Bool List.
From Stdlib Require Import Ascii String.
From Stdlib Require Import Decimal DecimalString DecimalPos DecimalZ.
From Stdlib Require Import SpecFloat.

Import ListNotations.
Local Open Scope string_scope.
Local Open Scope Z_scope.

(** ** The ECMAScript primitives the module calls *)

Module JS.

(** *** Numbers *)

Definition prec : Z := 53.
Definition emax : Z := 1024.

Definition number : Type := spec_float.

Definition NaN : number := S754_nan.
Definition Infinity : number := S754_infinity false.

(** A [number] of the language is one of the valid binary64 values. *)
Definition valid (x : number) : bool := valid_binary prec emax x.

(** [Number(b)] for a bigint [b]: the nearest binary64 value, ties to even. *)
Definition Number_of_BigInt (b : Z) : number :=
  binary_normalize prec emax b 0 false.

Definition add (x y : number) : number := SFadd prec emax x y.
Definition sub (x y : number) : number := SFsub prec emax x y.
Definition Math_abs (x : number) : number := SFabs x.

Definition isNaN (x : number) : bool :=
  match x with S754_nan => true | _ => false end.

(** The mathematical value of an integral number, [None] for the numbers
    that are not integral (NaN, the infinities, numbers with a fraction). *)
Definition integral_value (x : number) : option Z :=
  match x with
  | S754_zero _ => Some 0
  | S754_finite s m e =>
      if 0 <=? e then Some (cond_Zopp s (Zpos m * 2 ^ e))
      else if Zpos m mod 2 ^ (- e) =? 0
           then Some (cond_Zopp s (Zpos m / 2 ^ (- e)))
           else None
  | S754_infinity _ | S754_nan => None
  end.

(** *** Errors and outcomes *)

Inductive error : Type :=
| TypeError (message : string)
| RangeError
| SyntaxError.

Inductive outcome (A : Type) : Type :=
| Returned (a : A)
| Thrown (e : error).
Arguments Returned {A} a.
Arguments Thrown {A} e.

Definition outcome_map {A B} (f : A -> B) (o : outcome A) : outcome B :=
  match o with
  | Returned a => Returned (f a)
  | Thrown e => Thrown e
  end.

(** [BigInt(x)] for a number [x] throws a RangeError unless [x] is
    integral. *)
Definition BigInt_of_Number (x : number) : outcome Z :=
  match integral_value x with
  | Some z => Returned z
  | None => Thrown RangeError
  end.

(** *** Strings *)

(** The white space and line terminator code units below 256: TAB, LF, VT,
    FF, CR, SP and NBSP. *)
Definition is_whitespace (c : ascii) : bool :=
  let n := N_of_ascii c in
  ((9 <=? n) && (n <=? 13) || (n =? 32) || (n =? 160))%N.

Fixpoint trim_start (s : string) : string :=
  match s with
  | String c s' => if is_whitespace c then trim_start s' else s
  | EmptyString => EmptyString
  end.

Fixpoint trim_end (s : string) : string :=
  match s with
  | EmptyString => EmptyString
  | String c s' =>
      match trim_end s' with
      | EmptyString => if is_whitespace c then EmptyString else String c EmptyString
      | t => String c t
      end
  end.

Definition trim (s : string) : string := trim_end (trim_start s).

(** The value of a digit in a radix up to 16. *)
Definition digit_value (c : ascii) : option Z :=
  let n := Z.of_N (N_of_ascii c) in
  if (48 <=? n) && (n <=? 57) then Some (n - 48)
  else if (97 <=? n) && (n <=? 102) then Some (n - 87)
  else if (65 <=? n) && (n <=? 70) then Some (n - 55)
  else None.

Fixpoint parse_digits (radix : Z) (s : string) (acc : Z) : option Z :=
  match s with
  | EmptyString => Some acc
  | String c s' =>
      match digit_value c with
      | Some d => if d <? radix then parse_digits radix s' (acc * radix + d) else None
      | None => None
      end
  end.

(** One digit or more in the given radix. *)
Definition parse_radix (radix : Z) (s : string) : option Z :=
  match s with
  | EmptyString => None
  | _ => parse_digits radix s 0
  end.

(** One decimal digit or more. *)
Definition parse_decimal (s : string) : option Z :=
  option_map Z.of_uint (NilZero.uint_of_string s).

(** The grammar of StringToBigInt on a trimmed, non-empty string: a
    prefixed binary, octal or hexadecimal literal without sign, or decimal
    digits with an optional sign. *)
Definition parse_integer_literal (s : string) : option Z :=
  match s with
  | String "0" (String ("b" | "B") ds) => parse_radix 2 ds
  | String "0" (String ("o" | "O") ds) => parse_radix 8 ds
  | String "0" (String ("x" | "X") ds) => parse_radix 16 ds
  | String "-" ds => option_map Z.opp (parse_decimal ds)
  | String "+" ds => parse_decimal ds
  | _ => parse_decimal s
  end%char.

Definition StringToBigInt (s : string) : option Z :=
  match trim s with
  | EmptyString => Some 0
  | t => parse_integer_literal t
  end.

(** [BigInt(s)] for a string [s] throws a SyntaxError when [s] is not an
    integer literal. *)
Definition BigInt_of_String (s : string) : outcome Z :=
  match StringToBigInt s with
  | Some z => Returned z
  | None => Thrown SyntaxError
  end.

(** [b.toString()] for a bigint [b]. *)
Definition BigInt_toString (b : Z) : string :=
  NilZero.string_of_int (Z.to_int b).

Fixpoint binary_digits (p : positive) (acc : string) : string :=
  match p with
  | xH => String "1" acc
  | xO p' => binary_digits p' (String "0" acc)
  | xI p' => binary_digits p' (String "1" acc)
  end.

(** [b.toString(2)] for a bigint [b]. *)
Definition BigInt_toString2 (b : Z) : string :=
  match b with
  | Z0 => "0"
  | Zpos p => binary_digits p EmptyString
  | Zneg p => String "-" (binary_digits p EmptyString)
  end.

Fixpoint repeat_char (c : ascii) (n : nat) : string :=
  match n with
  | O => EmptyString
  | S n' => String c (repeat_char c n')
  end.

(** [s.padStart(targetLength, c)] for a one-character filler [c]. *)
Definition padStart (targetLength : nat) (c : ascii) (s : string) : string :=
  repeat_char c (targetLength - String.length s) ++ s.

(** *** Values, as far as [typeof] and [instanceof Date] tell them apart *)

Inductive value : Type :=
| VUndefined
| VNull
| VBoolean (b : bool)
| VNumber (x : number)
| VBigInt (b : Z)
| VString (s : string)
| VSymbol
| VFunction
| VDate (timeValue : number)
| VObject.

Definition typeof (v : value) : string :=
  match v with
  | VUndefined => "undefined"
  | VNull => "object"
  | VBoolean _ => "boolean"
  | VNumber _ => "number"
  | VBigInt _ => "bigint"
  | VString _ => "string"
  | VSymbol => "symbol"
  | VFunction => "function"
  | VDate _ => "object"
  | VObject => "object"
  end.

End JS.

Import JS.

(** ** typings/index.d.ts *)

Module Typings.

(** The [date] getter of the source builds [new Date(this.timestamp)] on
    demand from [timestamp]; it stores nothing of its own. *)
Record DeconstructedSnowflake : Type := {
  timestamp : number;
  workerId : number;
  processId : number;
  increment : number;
  binary : string
}.

End Typings.

(** ** The module state and its monad *)

(** [increment] is the module-level counter; [clock] is what [Date.now()]
    answers. *)
Record world : Type := { increment : Z; clock : number }.

Definition M (A : Type) : Type := world -> outcome A * world.

Definition ret {A} (a : A) : M A := fun w => (Returned a, w).

Definition throw {A} (e : error) : M A := fun w => (Thrown e, w).

Definition bind {A B} (m : M A) (k : A -> M B) : M B :=
  fun w =>
    match m w with
    | (Returned a, w') => k a w'
    | (Thrown e, w') => (Thrown e, w')
    end.

Definition lift {A} (o : outcome A) : M A := fun w => (o, w).

Definition get_increment : M Z := fun w => (Returned (increment w), w).

Definition set_increment (i : Z) : M unit :=
  fun w => (Returned tt, {| increment := i; clock := clock w |}).

Definition Date_now : M number := fun w => (Returned (clock w), w).

Notation "x <- m ;; k" := (bind m (fun x => k))
  (at level 61, m at next level, right associativity).
Notation "m ;;; k" := (bind m (fun _ => k))
  (at level 61, right associativity).

Definition eval {A} (m : M A) (w : world) : outcome A := fst (m w).

Definition exec {A} (m : M A) (w : world) : world := snd (m w).

Fixpoint mapM {A B} (f : A -> M B) (l : list A) : M (list B) :=
  match l with
  | [] => ret []
  | a :: l' => b <- f a ;; bs <- mapM f l' ;; ret (b :: bs)
  end.

(** ** The class MoltenFlake *)

Definition EPOCH : Z := 1420070400000.

(** The module as loaded: [let increment: bigint = 0n]. *)
Definition initial (now : number) : world := {| increment := 0; clock := now |}.

Module MoltenFlake.

Definition invalid_timestamp (v : value) : error :=
  TypeError ("Invalid timestamp: expected number but received " ++ typeof v).

(** [increment++] *)
Definition post_increment : M Z :=
  i <- get_increment ;; set_increment (i + 1) ;;; ret i.

Definition generate (timestamp : value) : M string :=
  timestamp <- match timestamp with
               | VUndefined => now <- Date_now ;; ret (VNumber now)
               | _ => ret timestamp
               end ;;
  let timestamp := match timestamp with
                   | VDate timeValue => VNumber timeValue
                   | _ => timestamp
                   end in
  match timestamp with
  | VNumber t =>
      if isNaN t then throw (invalid_timestamp timestamp)
      else
        i <- get_increment ;;
        (if 4095 <=? i then set_increment 0 else ret tt) ;;;
        b <- lift (BigInt_of_Number t) ;;
        i <- post_increment ;;
        let snowflake :=
          Z.lor (Z.lor (Z.shiftl (b - EPOCH) 22) (Z.shiftl 1 17)) i in
        ret (BigInt_toString snowflake)
  | _ => throw (invalid_timestamp timestamp)
  end.

Definition deconstruct (snowflake : string) : M Typings.DeconstructedSnowflake :=
  bigIntSnowflake <- lift (BigInt_of_String snowflake) ;;
  let timestamp :=
    add (Number_of_BigInt (Z.shiftr bigIntSnowflake 22)) (Number_of_BigInt EPOCH) in
  ret {| Typings.timestamp := timestamp;
         Typings.workerId :=
           Number_of_BigInt (Z.land (Z.shiftr bigIntSnowflake 17) 31);
         Typings.processId :=
           Number_of_BigInt (Z.land (Z.shiftr bigIntSnowflake 12) 31);
         Typings.increment := Number_of_BigInt (Z.land bigIntSnowflake 4095);
         Typings.binary := padStart 64 "0" (BigInt_toString2 bigIntSnowflake) |}.

Definition getTimestamp (snowflake : string) : M number :=
  b <- lift (BigInt_of_String snowflake) ;;
  ret (add (Number_of_BigInt (Z.shiftr b 22)) (Number_of_BigInt EPOCH)).

Definition calculateDuration (snowflake1 snowflake2 : string) : M number :=
  timestamp1 <- getTimestamp snowflake1 ;;
  timestamp2 <- getTimestamp snowflake2 ;;
  ret (Math_abs (sub timestamp1 timestamp2)).

(** The static getter [EPOCH]. *)
Definition get_EPOCH : M number := ret (Number_of_BigInt EPOCH).

End MoltenFlake.

Import MoltenFlake.

(** ** Vocabulary of the properties *)

(** *** The counter and the integer of a snowflake *)

Definition counter_in_range (w : world) : Prop := 0 <= increment w <= 4095.

(** The increment that a call embeds when it finds the counter at [c]. *)
Definition embedded (c : Z) : Z := if 4095 <=? c then 0 else c.

(** The integer that [generate] renders, from the bigint timestamp and the
    increment it embeds. *)
Definition compose (b i : Z) : Z :=
  Z.lor (Z.lor (Z.shiftl (b - EPOCH) 22) (Z.shiftl 1 17)) i.

(** *** Runs of calls *)

(** [n] calls of [generate] in a row with the same argument. *)
Fixpoint generate_many (n : nat) (timestamp : value) : M (list string) :=
  match n with
  | O => ret []
  | S n' => s <- generate timestamp ;; l <- generate_many n' timestamp ;; ret (s :: l)
  end.

(** The increment embedded in a snowflake, as [deconstruct] reports it. *)
Definition embedded_increment (snowflake : string) : M number :=
  d <- deconstruct snowflake ;; ret (Typings.increment d).

(** The increments embedded by [n] calls in a row. *)
Definition increments_of_run (n : nat) (timestamp : value) : M (list number) :=
  l <- generate_many n timestamp ;; mapM embedded_increment l.

(** The numbers [0, 1, ...] counted [n] times around a cycle of the given
    period. *)
Definition cycle (period n : nat) : list number :=
  map (fun j => Number_of_BigInt (Z.of_nat (j mod period))) (seq 0 n).

(** [deconstruct(generate(t)).timestamp] *)
Definition roundtrip (t : number) : M number :=
  s <- generate (VNumber t) ;; d <- deconstruct s ;; ret (Typings.timestamp d).

(** *** Numbers *)

(** [Number.MAX_SAFE_INTEGER] *)
Definition MAX_SAFE_INTEGER : Z := 9007199254740991.

(** The integers of at most 53 bits; every one of them is a binary64
    value. *)
Definition safe (z : Z) : Prop := Z.abs z < 2 ^ prec.

(** The binary64 value of the non-zero integer [v] of at most 53 bits, with
    its sign [s]: the mantissa is [v] shifted up to 53 bits. *)
Definition shift_of (v : positive) : N := Z.to_N (prec - Zpos (digits2_pos v)).

Definition normal_form (s : bool) (v : positive) : number :=
  S754_finite s (Pos.shiftl v (shift_of v)) (Zpos (digits2_pos v) - prec).

Definition finite (x : number) : bool :=
  match x with
  | S754_zero _ | S754_finite _ _ _ => true
  | S754_infinity _ | S754_nan => false
  end.

(** The integral number [(2^52 + 173348439) * 2^13], which is
    36893489567489515520. *)
Definition far_future : number := S754_finite false 4503599800718935 13.

(** *** Strings *)

Fixpoint all_chars (p : ascii -> bool) (s : string) : bool :=
  match s with
  | EmptyString => true
  | String c s' => p c && all_chars p s'
  end.

Definition is_bit (c : ascii) : bool := (Ascii.eqb c "0" || Ascii.eqb c "1")%char.

Definition is_decimal_digit (c : ascii) : bool :=
  let n := N_of_ascii c in ((48 <=? n) && (n <=? 57))%N.

(** A snowflake is a 64-bit unsigned integer written as a string. *)
Definition valid_snowflake (s : string) : bool :=
  match StringToBigInt s with
  | Some z => (0 <=? z) && (z <? 2 ^ 64)
  | None => false
  end.

(** *** Errors *)

(** The error that the specification calls InvalidTimestamp is the
    TypeError of the source. *)
Definition InvalidTimestamp {A} (o : outcome A) : Prop :=
  exists message, o = Thrown (TypeError message).

(** The argument is a finite numeric value: a finite number, a Date with a
    finite time value, or left out while the clock is finite. *)
Definition finite_numeric (w : world) (v : value) : Prop :=
  match v with
  | VNumber x | VDate x => finite x = true
  | VUndefined => finite (clock w) = true
  | _ => False
  end.

(** The arguments that the guard of [generate] rejects: what is neither a
    number nor a Date nor left out, and NaN, given as such, as the time value
    of a Date, or by the clock. *)
Definition rejected (w : world) (v : value) : Prop :=
  match v with
  | VNumber x | VDate x => x = NaN
  | VUndefined => clock w = NaN
  | _ => True
  end.

(** *** The properties as the specification words them *)

(** 4096 calls in a row: the increments count up to 4095 before they wrap,
    and no two of the snowflakes are the same. *)
Definition wraps_at_4096 (t : number) (w : world) : Prop :=
  eval (increments_of_run 4096 (VNumber t)) w = Returned (cycle 4096 4096) /\
  exists l, eval (generate_many 4096 (VNumber t)) w = Returned l /\ NoDup l.

(** The round trip at an integral timestamp at or after the epoch. *)
Definition roundtrip_exact (t : number) (w : world) : Prop :=
  forall z, valid t = true -> integral_value t = Some z -> EPOCH <= z ->
  counter_in_range w -> eval (roundtrip t) w = Returned t.

(** The concrete scenario, one second after the epoch with the counter at 0,
    for a given rendering of the snowflake. *)
Definition scenario (rendered : string) (w : world) : Prop :=
  eval (generate (VNumber (Number_of_BigInt 1420070401000))) w = Returned rendered /\
  exists d, eval (deconstruct rendered) w = Returned d /\
            Typings.timestamp d = Number_of_BigInt 1420070401000 /\
            Typings.workerId d = Number_of_BigInt 1 /\
            Typings.processId d = Number_of_BigInt 0 /\
            Typings.increment d = Number_of_BigInt 0.

(** InvalidTimestamp exactly on what is not a finite numeric value. *)
Definition rejects_non_finite (v : value) (w : world) : Prop :=
  InvalidTimestamp (eval (generate v) w) <-> ~ finite_numeric w v.

(** A failing call leaves the counter as it was. *)
Definition failure_keeps_counter (v : value) (w : world) : Prop :=
  forall e, eval (generate v) w = Thrown e ->
  increment (exec (generate v) w) = increment w.

(** The binary rendering of a string that reads as an integer. *)
Definition binary_rendering (s : string) (w : world) : Prop :=
  forall z, StringToBigInt s = Some z ->
  exists d, eval (deconstruct s) w = Returned d /\
            String.length (Typings.binary d) = 64%nat /\
            all_chars is_bit (Typings.binary d) = true /\
            parse_radix 2 (Typings.binary d) = Some z.

(** *** Dates *)

(** The integer part of a finite number, towards zero. *)
Definition truncate (x : number) : Z :=
  match x with
  | S754_finite s m e =>
      cond_Zopp s (if 0 <=? e then Zpos m * 2 ^ e else Zpos m / 2 ^ (- e))
  | _ => 0
  end.

(** The magnitude of a finite number is above the integer [bound]. *)
Definition exceeds (bound : Z) (x : number) : bool :=
  match x with
  | S754_finite _ m e =>
      if 0 <=? e then bound <? Zpos m * 2 ^ e else bound * 2 ^ (- e) <? Zpos m
  | _ => false
  end.

(** TimeClip of ECMAScript: the time values are the integral numbers of
    magnitude at most 8.64e15; everything else is NaN. *)
Definition TimeClip (time : number) : number :=
  if negb (finite time) then NaN
  else if exceeds 8640000000000000 time then NaN
  else Number_of_BigInt (truncate time).

(** The getter [date] of the object that [deconstruct] returns:
    [new Date(this.timestamp)]. *)
Definition date (d : Typings.DeconstructedSnowflake) : value :=
  VDate (TimeClip (Typings.timestamp d)).

(** [generate(deconstruct(s).date)], then [getTimestamp] of the result. *)
Definition regenerate (s : string) : M number :=
  d <- deconstruct s ;; s' <- generate (date d) ;; getTimestamp s'.

(** [calculateDuration(generate(t1), generate(t2))] *)
Definition duration_of_generated (t1 t2 : number) : M number :=
  s1 <- generate (VNumber t1) ;; s2 <- generate (VNumber t2) ;;
  calculateDuration s1 s2.

(** The integer that [BigInt] reads from what [generate] returns. *)
Definition generated_integer (t : number) : M Z :=
  s <- generate (VNumber t) ;; lift (BigInt_of_String s).

(** The number that [generate] takes its argument for: the clock for
    [undefined], the time value for a Date. *)
Definition timestamp_number (w : world) (v : value) : option number :=
  match v with
  | VUndefined => Some (clock w)
  | VNumber x | VDate x => Some x
  | _ => None
  end.

(** Bounds on safe integers, by linear arithmetic. *)
Ltac safe_bound := unfold safe, prec, EPOCH, MAX_SAFE_INTEGER in *; lia.

(** ** The primitives and the methods on concrete inputs *)

Example BigInt_of_String_trims : BigInt_of_String "  42 " = Returned 42.
Proof. reflexivity. Qed.

Example BigInt_of_String_sign : BigInt_of_String "-007" = Returned (-7).
Proof. reflexivity. Qed.

Example BigInt_of_String_hex : BigInt_of_String "0x1F" = Returned 31.
Proof. reflexivity. Qed.

Example BigInt_of_String_signed_hex : BigInt_of_String "-0x1F" = Thrown SyntaxError.
Proof. reflexivity. Qed.

Example BigInt_of_String_fraction : BigInt_of_String "1.5" = Thrown SyntaxError.
Proof. reflexivity. Qed.

Example BigInt_toString_negative : BigInt_toString (-120) = "-120".
Proof. reflexivity. Qed.

Example Number_of_BigInt_1000 :
  Number_of_BigInt 1000 = S754_finite false 8796093022208000 (-43).
Proof. reflexivity. Qed.

Example Number_of_BigInt_rounds :
  Number_of_BigInt (2 ^ 53 + 1) = Number_of_BigInt (2 ^ 53).
Proof. reflexivity. Qed.

Example generate_text :
  eval (generate (VString "not-a-number")) (initial NaN)
  = Thrown (TypeError "Invalid timestamp: expected number but received string").
Proof. reflexivity. Qed.

Example generate_invalid_Date :
  eval (generate (VDate NaN)) (initial NaN)
  = Thrown (TypeError "Invalid timestamp: expected number but received number").
Proof. reflexivity. Qed.

(** 1.5 is a number, is not NaN, and is no integer. *)
Example generate_fraction :
  valid (S754_finite false 6755399441055744 (-52)) = true /\
  eval (generate (VNumber (S754_finite false 6755399441055744 (-52)))) (initial NaN)
  = Thrown RangeError.
Proof. split; reflexivity. Qed.

Example generate_default_time :
  eval (generate VUndefined) (initial (Number_of_BigInt 1420070401000))
  = Returned "4194435072".
Proof. reflexivity. Qed.

Example deconstruct_abc :
  eval (deconstruct "abc") (initial NaN) = Thrown SyntaxError.
Proof. reflexivity. Qed.

Example calculateDuration_one_second :
  eval (calculateDuration "4194435072" "131072") (initial NaN)
  = Returned (Number_of_BigInt 1000).
Proof. vm_compute. reflexivity. Qed.

(** ** Exactness of binary64 arithmetic on safe integers *)

Lemma iter_pos_iter {A} (f : A -> A) (p : positive) (x : A) :
  iter_pos f p x = Pos.iter f x p.
Proof.
  revert x. induction p as [p IH | p IH |]; intros x; simpl.
  - rewrite !IH. now rewrite <- !Pos.iter_swap.
  - now rewrite !IH.
  - reflexivity.
Qed.

Lemma digits2_pos_shiftl (v : positive) (n : N) :
  Zpos (digits2_pos (Pos.shiftl v n)) = Zpos (digits2_pos v) + Z.of_N n.
Proof.
  destruct n as [| p]; simpl; [lia |].
  induction p as [| p IH] using Pos.peano_ind.
  - simpl. lia.
  - rewrite Pos.iter_succ. simpl digits2_pos. lia.
Qed.

Lemma shiftl_shiftl (v : positive) (n m : N) :
  Pos.shiftl (Pos.shiftl v n) m = Pos.shiftl v (n + m).
Proof.
  destruct m as [| q]; [now rewrite N.add_0_r |].
  destruct n as [| p]; [reflexivity |].
  simpl. now rewrite Pos.add_comm, Pos.iter_add.
Qed.

Lemma shr_1_iter (m : positive) (p : positive) :
  Pos.iter shr_1 (Build_shr_record (Zpos (Pos.iter xO m p)) false false) p
  = Build_shr_record (Zpos m) false false.
Proof.
  induction p as [| p IH] using Pos.peano_ind.
  - reflexivity.
  - rewrite Pos.iter_succ_r. rewrite Pos.iter_succ. simpl shr_1. exact IH.
Qed.

Lemma fexp_small (d : Z) : 0 < d -> fexp prec emax d = d - prec.
Proof. intros H. unfold fexp, emin, prec, emax. lia. Qed.

(** A 53-bit mantissa with an exponent in range needs no shift. *)
Lemma shr_fexp_normal (m : positive) (e : Z) :
  Zpos (digits2_pos m) = prec -> - prec < e <= 0 ->
  shr_fexp prec emax (Zpos m) e loc_Exact
  = (Build_shr_record (Zpos m) false false, e).
Proof.
  intros Hd He. unfold shr_fexp. simpl Zdigits2.
  rewrite Hd, fexp_small by (unfold prec in *; lia).
  replace (prec + e - prec - e) with 0 by lia. reflexivity.
Qed.

(** Zero bits below a 53-bit mantissa are shifted out exactly. *)
Lemma shr_fexp_shift (m p : positive) (e : Z) :
  Zpos (digits2_pos m) = prec -> - prec < e <= 0 ->
  shr_fexp prec emax (Zpos (Pos.iter xO m p)) (e - Zpos p) loc_Exact
  = (Build_shr_record (Zpos m) false false, e).
Proof.
  intros Hd He. unfold shr_fexp. simpl Zdigits2.
  change (Pos.iter xO m p) with (Pos.shiftl m (Npos p)).
  rewrite digits2_pos_shiftl, Hd, fexp_small by (unfold prec in *; lia).
  replace (prec + Z.of_N (Npos p) + (e - Zpos p) - prec - (e - Zpos p))
    with (Zpos p) by lia.
  simpl shr_record_of_loc. unfold shr. rewrite iter_pos_iter.
  simpl Pos.shiftl. rewrite shr_1_iter. f_equal. lia.
Qed.

(** A 53-bit mantissa with an exponent in range is left as it is. *)
Lemma binary_round_aux_normal (s : bool) (m : positive) (e : Z) :
  Zpos (digits2_pos m) = prec -> - prec < e <= 0 ->
  binary_round_aux prec emax s (Zpos m) e loc_Exact = S754_finite s m e.
Proof.
  intros Hd He. unfold binary_round_aux.
  rewrite (shr_fexp_normal m e Hd He).
  simpl shr_m. simpl loc_of_shr_record. simpl round_nearest_even.
  rewrite (shr_fexp_normal m e Hd He). simpl shr_m.
  replace (e <=? emax - prec) with true; [reflexivity |].
  symmetry. apply Z.leb_le. unfold emax, prec in *. lia.
Qed.

Lemma binary_round_aux_shift (s : bool) (m p : positive) (e : Z) :
  Zpos (digits2_pos m) = prec -> - prec < e <= 0 ->
  binary_round_aux prec emax s (Zpos (Pos.iter xO m p)) (e - Zpos p) loc_Exact
  = S754_finite s m e.
Proof.
  intros Hd He. unfold binary_round_aux.
  rewrite (shr_fexp_shift m p e Hd He).
  simpl shr_m. simpl loc_of_shr_record. simpl round_nearest_even.
  rewrite (shr_fexp_normal m e Hd He). simpl shr_m.
  replace (e <=? emax - prec) with true; [reflexivity |].
  symmetry. apply Z.leb_le. unfold emax, prec in *. lia.
Qed.

(** The mantissa of the normal form has 53 bits. *)
Lemma normal_form_digits (v : positive) :
  Zpos (digits2_pos v) <= prec ->
  Zpos (digits2_pos (Pos.shiftl v (shift_of v))) = prec.
Proof.
  intros H. unfold shift_of. rewrite digits2_pos_shiftl, Z2N.id by lia. lia.
Qed.

(** Rounding [v * 2^n] given at exponent [-n] yields the normal form of [v]
    whenever [v] fits in 53 bits. *)
Lemma binary_round_exact (s : bool) (v : positive) (n : N) :
  Zpos (digits2_pos v) <= prec ->
  binary_round prec emax s (Pos.shiftl v n) (- Z.of_N n) = normal_form s v.
Proof.
  intros Hv. unfold binary_round, normal_form, shift_of.
  set (d := Zpos (digits2_pos v)) in *.
  assert (Hd : 0 < d) by (unfold d; lia).
  rewrite digits2_pos_shiftl. fold d.
  replace (d + Z.of_N n + - Z.of_N n) with d by lia.
  rewrite fexp_small by assumption.
  pose proof (normal_form_digits v Hv) as Hn. unfold shift_of in Hn. fold d in Hn.
  unfold shl_align.
  destruct (d - prec - - Z.of_N n) as [| q | q] eqn:Hq.
  - (* no shift at all *)
    replace (Z.to_N (prec - d)) with n in * by lia.
    replace (- Z.of_N n) with (d - prec) by lia.
    apply binary_round_aux_normal; [exact Hn | unfold prec in *; lia].
  - (* shift right by q *)
    assert (Hn' : n = (Z.to_N (prec - d) + Npos q)%N) by lia.
    rewrite Hn' at 1. rewrite <- shiftl_shiftl. simpl (Pos.shiftl _ (Npos q)).
    replace (- Z.of_N n) with (d - prec - Zpos q) by lia.
    apply binary_round_aux_shift; [exact Hn | unfold prec in *; lia].
  - (* shift left by q *)
    change (Pos.iter xO (Pos.shiftl v n) q) with (Pos.shiftl (Pos.shiftl v n) (Npos q)).
    rewrite shiftl_shiftl.
    replace (n + Npos q)%N with (Z.to_N (prec - d)) by lia.
    apply binary_round_aux_normal; [exact Hn | unfold prec in *; lia].
Qed.

Lemma Zpos_shiftl (v : positive) (n : N) :
  Zpos (Pos.shiftl v n) = Zpos v * 2 ^ Z.of_N n.
Proof.
  destruct n as [| p]; simpl Pos.shiftl; [simpl; lia |].
  induction p as [| p IH] using Pos.peano_ind.
  - simpl. lia.
  - rewrite Pos.iter_succ, (Pos2Z.inj_xO (Pos.iter xO v p)), IH.
    change (Z.of_N (Npos (Pos.succ p))) with (Zpos (Pos.succ p)).
    rewrite Pos2Z.inj_succ, Z.pow_succ_r by lia.
    change (Z.of_N (Npos p)) with (Zpos p). lia.
Qed.

Lemma digits2_pos_bounds (v : positive) :
  2 ^ (Zpos (digits2_pos v) - 1) <= Zpos v < 2 ^ Zpos (digits2_pos v).
Proof.
  induction v as [v IH | v IH |]; simpl digits2_pos.
  - rewrite Pos2Z.inj_succ, Pos2Z.inj_xI.
    replace (Z.succ (Zpos (digits2_pos v)) - 1) with (Z.succ (Zpos (digits2_pos v) - 1)) by lia.
    rewrite !Z.pow_succ_r by lia.
    generalize dependent (2 ^ (Zpos (digits2_pos v) - 1)).
    generalize dependent (2 ^ Zpos (digits2_pos v)). intros; lia.
  - rewrite Pos2Z.inj_succ, (Pos2Z.inj_xO v).
    replace (Z.succ (Zpos (digits2_pos v)) - 1) with (Z.succ (Zpos (digits2_pos v) - 1)) by lia.
    rewrite !Z.pow_succ_r by lia.
    generalize dependent (2 ^ (Zpos (digits2_pos v) - 1)).
    generalize dependent (2 ^ Zpos (digits2_pos v)). intros; lia.
  - simpl. lia.
Qed.

Lemma digits2_pos_le (v : positive) (k : Z) :
  0 <= k -> Zpos v < 2 ^ k -> Zpos (digits2_pos v) <= k.
Proof.
  intros Hk Hv. destruct (Z.le_gt_cases (Zpos (digits2_pos v)) k) as [H | H]; [exact H |].
  pose proof (digits2_pos_bounds v) as [Hl _].
  assert (2 ^ k <= 2 ^ (Zpos (digits2_pos v) - 1)) by (apply Z.pow_le_mono_r; lia).
  lia.
Qed.

Lemma binary_normalize_exact (z : Z) (n : N) :
  safe z ->
  binary_normalize prec emax (z * 2 ^ Z.of_N n) (- Z.of_N n) false = Number_of_BigInt z.
Proof.
  unfold safe, Number_of_BigInt. intros Hz.
  destruct z as [| v | v].
  - reflexivity.
  - assert (Hd : Zpos (digits2_pos v) <= prec)
      by (apply digits2_pos_le; [unfold prec | ]; lia).
    rewrite <- Zpos_shiftl. simpl binary_normalize.
    rewrite binary_round_exact by exact Hd.
    symmetry. apply (binary_round_exact false v 0 Hd).
  - assert (Hd : Zpos (digits2_pos v) <= prec)
      by (apply digits2_pos_le; [unfold prec | ]; lia).
    replace (Zneg v * 2 ^ Z.of_N n) with (Z.opp (Zpos (Pos.shiftl v n)))
      by (rewrite Zpos_shiftl; lia).
    simpl binary_normalize.
    rewrite binary_round_exact by exact Hd.
    symmetry. apply (binary_round_exact true v 0 Hd).
Qed.

(** The binary64 value of a non-zero safe integer, spelled out. *)
Lemma Number_of_BigInt_finite (s : bool) (v : positive) :
  safe (Zpos v) ->
  Number_of_BigInt (cond_Zopp s (Zpos v)) = normal_form s v.
Proof.
  unfold safe. intros Hz.
  assert (Hd : Zpos (digits2_pos v) <= prec)
    by (apply digits2_pos_le; [unfold prec | ]; lia).
  destruct s; simpl cond_Zopp; unfold Number_of_BigInt; simpl binary_normalize;
    apply (binary_round_exact _ v 0 Hd).
Qed.

Lemma normal_form_eq (s : bool) (v : positive) :
  safe (Zpos v) ->
  normal_form s v = S754_finite s (Pos.shiftl v (shift_of v)) (- Z.of_N (shift_of v)).
Proof.
  unfold safe. intros Hz.
  assert (Hd : Zpos (digits2_pos v) <= prec)
    by (apply digits2_pos_le; [unfold prec | ]; lia).
  unfold normal_form, shift_of. f_equal. rewrite Z2N.id by lia. lia.
Qed.

Lemma shl_align_fst (v : positive) (q Q : N) :
  (q <= Q)%N ->
  fst (shl_align (Pos.shiftl v q) (- Z.of_N q) (- Z.of_N Q)) = Pos.shiftl v Q.
Proof.
  intros H. unfold shl_align.
  destruct (- Z.of_N Q - - Z.of_N q) as [| d | d] eqn:Hd; simpl fst.
  - f_equal. lia.
  - lia.
  - change (Pos.iter xO (Pos.shiftl v q) d) with (Pos.shiftl (Pos.shiftl v q) (Npos d)).
    rewrite shiftl_shiftl. f_equal. lia.
Qed.

Lemma cond_Zopp_shiftl (s : bool) (v : positive) (n : N) :
  cond_Zopp s (Zpos (Pos.shiftl v n)) = cond_Zopp s (Zpos v) * 2 ^ Z.of_N n.
Proof. rewrite Zpos_shiftl. destruct s; unfold cond_Zopp; [ring | reflexivity]. Qed.

Lemma sign_magnitude (z : Z) :
  z <> 0 -> exists s v, z = cond_Zopp s (Zpos v).
Proof.
  destruct z as [| v | v]; intros H.
  - congruence.
  - now exists false, v.
  - now exists true, v.
Qed.

Lemma safe_cond_Zopp (s : bool) (v : positive) :
  safe (cond_Zopp s (Zpos v)) -> safe (Zpos v).
Proof. unfold safe. destruct s; simpl; lia. Qed.

(** Addition of safe integers whose sum is safe is exact. *)
Lemma add_exact (a b : Z) :
  safe a -> safe b -> safe (a + b) ->
  add (Number_of_BigInt a) (Number_of_BigInt b) = Number_of_BigInt (a + b).
Proof.
  intros Ha Hb Hab.
  destruct (Z.eq_dec a 0) as [-> | Na].
  { simpl (0 + b). destruct (Z.eq_dec b 0) as [-> | Nb]; [reflexivity |].
    destruct (sign_magnitude b Nb) as (sb & vb & ->).
    rewrite Number_of_BigInt_finite by (eapply safe_cond_Zopp; eassumption).
    reflexivity. }
  destruct (sign_magnitude a Na) as (sa & va & Ea).
  destruct (Z.eq_dec b 0) as [-> | Nb].
  { rewrite Z.add_0_r. subst a.
    rewrite Number_of_BigInt_finite by (eapply safe_cond_Zopp; eassumption).
    reflexivity. }
  destruct (sign_magnitude b Nb) as (sb & vb & Eb).
  rewrite Ea at 1. rewrite Eb at 1.
  assert (Sa : safe (Zpos va)) by (eapply safe_cond_Zopp; rewrite <- Ea; exact Ha).
  assert (Sb : safe (Zpos vb)) by (eapply safe_cond_Zopp; rewrite <- Eb; exact Hb).
  rewrite !Number_of_BigInt_finite, !normal_form_eq by assumption.
  unfold add, SFadd.
  set (qa := shift_of va). set (qb := shift_of vb).
  replace (Z.min (- Z.of_N qa) (- Z.of_N qb)) with (- Z.of_N (N.max qa qb)) by lia.
  rewrite !shl_align_fst by lia.
  rewrite !cond_Zopp_shiftl, <- Ea, <- Eb, <- Z.mul_add_distr_r.
  now apply binary_normalize_exact.
Qed.

(** Subtraction of safe integers whose difference is safe is exact. *)
Lemma sub_exact (a b : Z) :
  safe a -> safe b -> safe (a - b) ->
  sub (Number_of_BigInt a) (Number_of_BigInt b) = Number_of_BigInt (a - b).
Proof.
  intros Ha Hb Hab.
  destruct (Z.eq_dec b 0) as [-> | Nb].
  { rewrite Z.sub_0_r. destruct (Z.eq_dec a 0) as [-> | Na]; [reflexivity |].
    destruct (sign_magnitude a Na) as (sa & va & ->).
    rewrite Number_of_BigInt_finite by (eapply safe_cond_Zopp; eassumption).
    reflexivity. }
  destruct (sign_magnitude b Nb) as (sb & vb & Eb).
  assert (Sb : safe (Zpos vb)) by (eapply safe_cond_Zopp; rewrite <- Eb; exact Hb).
  destruct (Z.eq_dec a 0) as [-> | Na].
  { simpl (0 - b). rewrite Eb at 1.
    replace (- b) with (cond_Zopp (negb sb) (Zpos vb)) by (rewrite Eb; destruct sb; reflexivity).
    rewrite !Number_of_BigInt_finite by assumption. reflexivity. }
  destruct (sign_magnitude a Na) as (sa & va & Ea).
  assert (Sa : safe (Zpos va)) by (eapply safe_cond_Zopp; rewrite <- Ea; exact Ha).
  rewrite Ea at 1. rewrite Eb at 1.
  rewrite !Number_of_BigInt_finite, !normal_form_eq by assumption.
  unfold sub, SFsub.
  set (qa := shift_of va). set (qb := shift_of vb).
  replace (Z.min (- Z.of_N qa) (- Z.of_N qb)) with (- Z.of_N (N.max qa qb)) by lia.
  rewrite !shl_align_fst by lia.
  rewrite !cond_Zopp_shiftl, <- Ea, <- Eb, <- Z.mul_sub_distr_r.
  now apply binary_normalize_exact.
Qed.

Lemma abs_exact (a : Z) :
  safe a -> Math_abs (Number_of_BigInt a) = Number_of_BigInt (Z.abs a).
Proof.
  intros Ha. destruct (Z.eq_dec a 0) as [-> | Na]; [reflexivity |].
  destruct (sign_magnitude a Na) as (sa & va & ->).
  assert (Sa : safe (Zpos va)) by (eapply safe_cond_Zopp; eassumption).
  replace (Z.abs (cond_Zopp sa (Zpos va))) with (cond_Zopp false (Zpos va))
    by (destruct sa; reflexivity).
  rewrite !Number_of_BigInt_finite by assumption. reflexivity.
Qed.

Lemma safe_digits (v : positive) : safe (Zpos v) -> Zpos (digits2_pos v) <= prec.
Proof.
  unfold safe. intros H. apply digits2_pos_le; [unfold prec | ]; lia.
Qed.

Lemma integral_value_exact (z : Z) :
  safe z -> integral_value (Number_of_BigInt z) = Some z.
Proof.
  intros Hz. destruct (Z.eq_dec z 0) as [-> | Nz]; [reflexivity |].
  destruct (sign_magnitude z Nz) as (s & v & ->).
  assert (Sv : safe (Zpos v)) by (eapply safe_cond_Zopp; eassumption).
  rewrite Number_of_BigInt_finite, normal_form_eq by assumption.
  unfold integral_value. set (q := shift_of v).
  rewrite Zpos_shiftl.
  destruct (0 <=? - Z.of_N q) eqn:Hq.
  - apply Z.leb_le in Hq. replace (Z.of_N q) with 0 by lia.
    simpl (2 ^ 0). simpl (- 0). simpl (2 ^ 0). now rewrite !Z.mul_1_r.
  - rewrite Z.opp_involutive.
    assert (Hp : 0 < 2 ^ Z.of_N q) by (apply Z.pow_pos_nonneg; lia).
    rewrite Z.mod_mul, Z.div_mul by lia. reflexivity.
Qed.

(** A valid number whose value is a non-zero safe integer is the conversion
    of that integer. *)
Lemma valid_integral (t : number) (z : Z) :
  valid t = true -> integral_value t = Some z -> z <> 0 -> safe z ->
  t = Number_of_BigInt z.
Proof.
  intros Hv Hi Nz Hz.
  destruct t as [s | s | | s m e]; unfold integral_value in Hi; try congruence.
  unfold valid, valid_binary, bounded, canonical_mantissa in Hv.
  apply andb_true_iff in Hv. destruct Hv as [Hc _]. apply Z.eqb_eq in Hc.
  destruct (0 <=? e) eqn:He.
  - (* no fraction bits: the mantissa is the integer itself *)
    apply Z.leb_le in He.
    assert (Hz' : cond_Zopp s (Zpos m * 2 ^ e) = z) by congruence. clear Hi.
    rename Hz' into Hi.
    assert (Ev : Zpos m * 2 ^ e = Zpos (Pos.shiftl m (Z.to_N e)))
      by (rewrite Zpos_shiftl, Z2N.id; lia).
    rewrite Ev in Hi. subst z.
    assert (Sv : safe (Zpos (Pos.shiftl m (Z.to_N e))))
      by (eapply safe_cond_Zopp; eassumption).
    pose proof (safe_digits _ Sv) as Hd.
    rewrite digits2_pos_shiftl, Z2N.id in Hd by lia.
    unfold fexp, emin, prec, emax in Hc. unfold prec in Hd.
    assert (e = 0) by lia. subst e. simpl Pos.shiftl in *.
    rewrite Number_of_BigInt_finite by assumption. unfold normal_form, shift_of, prec.
    replace (Zpos (digits2_pos m)) with 53 by lia. reflexivity.
  - (* the fraction bits are zero *)
    apply Z.leb_gt in He.
    assert (Hp : 0 < 2 ^ (- e)) by (apply Z.pow_pos_nonneg; lia).
    destruct (Zpos m mod 2 ^ (- e) =? 0) eqn:Hm; [| congruence].
    apply Z.eqb_eq in Hm.
    assert (Hz' : cond_Zopp s (Zpos m / 2 ^ (- e)) = z) by congruence. clear Hi.
    rename Hz' into Hi.
    pose proof (Z.div_mod (Zpos m) (2 ^ (- e)) ltac:(lia)) as Hdm.
    rewrite Hm, Z.add_0_r in Hdm.
    destruct (Zpos m / 2 ^ (- e)) as [| v | v] eqn:Hq.
    + lia.
    + assert (Em : m = Pos.shiftl v (Z.to_N (- e))).
      { apply Pos2Z.inj. rewrite Zpos_shiftl, Z2N.id by lia. lia. }
      subst z.
      assert (Sv : safe (Zpos v)) by (eapply safe_cond_Zopp; eassumption).
      pose proof (safe_digits v Sv) as Hd.
      rewrite Em, digits2_pos_shiftl, Z2N.id in Hc by lia.
      replace (Zpos (digits2_pos v) + - e + e) with (Zpos (digits2_pos v)) in Hc by lia.
      rewrite fexp_small in Hc by lia.
      rewrite Number_of_BigInt_finite by assumption. unfold normal_form, shift_of.
      rewrite Em. f_equal; [| lia]. f_equal. lia.
    + pose proof (Zlt_neg_0 v). lia.
Qed.
(** ** Exactness of binary64 arithmetic beyond the safe integers *)

(** *** Rounding integers that are a 53-bit integer times a power of two *)

Lemma shr_fexp_wide (m : positive) (e : Z) :
  Zpos (digits2_pos m) = prec -> - prec < e ->
  shr_fexp prec emax (Zpos m) e loc_Exact
  = (Build_shr_record (Zpos m) false false, e).
Proof.
  intros Hd He. unfold shr_fexp. simpl Zdigits2.
  rewrite Hd, fexp_small by (unfold prec in *; lia).
  replace (prec + e - prec - e) with 0 by lia. reflexivity.
Qed.

Lemma shr_fexp_shift_wide (m p : positive) (e : Z) :
  Zpos (digits2_pos m) = prec -> - prec < e ->
  shr_fexp prec emax (Zpos (Pos.iter xO m p)) (e - Zpos p) loc_Exact
  = (Build_shr_record (Zpos m) false false, e).
Proof.
  intros Hd He. unfold shr_fexp. simpl Zdigits2.
  change (Pos.iter xO m p) with (Pos.shiftl m (Npos p)).
  rewrite digits2_pos_shiftl, Hd, fexp_small by (unfold prec in *; lia).
  replace (prec + Z.of_N (Npos p) + (e - Zpos p) - prec - (e - Zpos p))
    with (Zpos p) by lia.
  simpl shr_record_of_loc. unfold shr. rewrite iter_pos_iter.
  simpl Pos.shiftl. rewrite shr_1_iter. f_equal. lia.
Qed.

Lemma binary_round_aux_wide (s : bool) (m : positive) (e : Z) :
  Zpos (digits2_pos m) = prec -> - prec < e <= emax - prec ->
  binary_round_aux prec emax s (Zpos m) e loc_Exact = S754_finite s m e.
Proof.
  intros Hd He. unfold binary_round_aux.
  rewrite (shr_fexp_wide m e Hd (proj1 He)).
  simpl shr_m. simpl loc_of_shr_record. simpl round_nearest_even.
  rewrite (shr_fexp_wide m e Hd (proj1 He)). simpl shr_m.
  replace (e <=? emax - prec) with true; [reflexivity |].
  symmetry. apply Z.leb_le. lia.
Qed.

Lemma binary_round_aux_shift_wide (s : bool) (m p : positive) (e : Z) :
  Zpos (digits2_pos m) = prec -> - prec < e <= emax - prec ->
  binary_round_aux prec emax s (Zpos (Pos.iter xO m p)) (e - Zpos p) loc_Exact
  = S754_finite s m e.
Proof.
  intros Hd He. unfold binary_round_aux.
  rewrite (shr_fexp_shift_wide m p e Hd (proj1 He)).
  simpl shr_m. simpl loc_of_shr_record. simpl round_nearest_even.
  rewrite (shr_fexp_wide m e Hd (proj1 He)). simpl shr_m.
  replace (e <=? emax - prec) with true; [reflexivity |].
  symmetry. apply Z.leb_le. lia.
Qed.

(** Rounding [v * 2^n] given at exponent [k - n] yields the normal form of
    [v] with [k] added to its exponent, whenever [v] fits in 53 bits and the
    exponent stays in range: the value [v * 2^k] is a binary64 value. *)
Lemma binary_round_scaled (s : bool) (v : positive) (n : N) (k : Z) :
  Zpos (digits2_pos v) <= prec ->
  - prec < Zpos (digits2_pos v) - prec + k <= emax - prec ->
  binary_round prec emax s (Pos.shiftl v n) (k - Z.of_N n)
  = S754_finite s (Pos.shiftl v (shift_of v)) (Zpos (digits2_pos v) - prec + k).
Proof.
  intros Hv Hk. unfold binary_round, shift_of.
  set (d := Zpos (digits2_pos v)) in *.
  rewrite digits2_pos_shiftl. fold d.
  replace (d + Z.of_N n + (k - Z.of_N n)) with (d + k) by lia.
  rewrite fexp_small by lia.
  pose proof (normal_form_digits v Hv) as Hn. unfold shift_of in Hn. fold d in Hn.
  unfold shl_align.
  destruct (d + k - prec - (k - Z.of_N n)) as [| q | q] eqn:Hq.
  - replace (Z.to_N (prec - d)) with n in * by lia.
    replace (k - Z.of_N n) with (d - prec + k) by lia.
    apply binary_round_aux_wide; [exact Hn | lia].
  - assert (Hn' : n = (Z.to_N (prec - d) + Npos q)%N) by lia.
    rewrite Hn' at 1. rewrite <- shiftl_shiftl. simpl (Pos.shiftl _ (Npos q)).
    replace (k - Z.of_N n) with (d - prec + k - Zpos q) by lia.
    apply binary_round_aux_shift_wide; [exact Hn | lia].
  - change (Pos.iter xO (Pos.shiftl v n) q) with (Pos.shiftl (Pos.shiftl v n) (Npos q)).
    rewrite shiftl_shiftl.
    replace (n + Npos q)%N with (Z.to_N (prec - d)) by lia.
    replace (d + k - prec) with (d - prec + k) by lia.
    apply binary_round_aux_wide; [exact Hn | lia].
Qed.

(** [Number(v * 2^k)] for a 53-bit integer [v]. *)
Lemma Number_of_scaled (v : positive) (k : Z) :
  0 <= k -> Zpos (digits2_pos v) <= prec ->
  Zpos (digits2_pos v) - prec + k <= emax - prec ->
  Number_of_BigInt (Zpos v * 2 ^ k)
  = S754_finite false (Pos.shiftl v (shift_of v)) (Zpos (digits2_pos v) - prec + k).
Proof.
  intros Hk Hv Hr.
  replace (Zpos v * 2 ^ k) with (Zpos (Pos.shiftl v (Z.to_N k)))
    by (rewrite Zpos_shiftl, Z2N.id by lia; reflexivity).
  unfold Number_of_BigInt. simpl binary_normalize.
  replace 0 with (k - Z.of_N (Z.to_N k)) at 1 by (rewrite Z2N.id; lia).
  apply binary_round_scaled; [exact Hv |].
  unfold prec in *. lia.
Qed.

Lemma shl_align_value (mx : positive) (ex ez : Z) :
  ez <= ex -> Zpos (fst (shl_align mx ex ez)) = Zpos mx * 2 ^ (ex - ez).
Proof.
  intros H. unfold shl_align.
  destruct (ez - ex) as [| d | d] eqn:Hd; cbn [fst].
  - replace (ex - ez) with 0 by lia. now rewrite Z.pow_0_r, Z.mul_1_r.
  - lia.
  - change (Pos.iter xO mx d) with (Pos.shiftl mx (Npos d)).
    rewrite Zpos_shiftl. do 2 f_equal. change (Z.of_N (Npos d)) with (Zpos d). lia.
Qed.

(** The sum of two positive numbers is exact when it is a 53-bit integer
    times a power of two. *)
Lemma add_scaled (mx my m : positive) (ex ey e : Z) :
  Zpos (digits2_pos m) = prec -> - prec < e <= emax - prec ->
  Z.min ex ey <= e ->
  Zpos mx * 2 ^ (ex - Z.min ex ey) + Zpos my * 2 ^ (ey - Z.min ex ey)
  = Zpos m * 2 ^ (e - Z.min ex ey) ->
  add (S754_finite false mx ex) (S754_finite false my ey) = S754_finite false m e.
Proof.
  intros Hd He Hz Hsum. unfold add, SFadd. cbv zeta.
  set (ez := Z.min ex ey) in *. unfold cond_Zopp.
  rewrite !shl_align_value by lia. rewrite Hsum.
  replace (Zpos m * 2 ^ (e - ez)) with (Zpos (Pos.shiftl m (Z.to_N (e - ez))))
    by (rewrite Zpos_shiftl, Z2N.id by lia; reflexivity).
  simpl binary_normalize.
  replace ez with (e - Z.of_N (Z.to_N (e - ez))) at 2 by (rewrite Z2N.id; lia).
  rewrite binary_round_scaled by (rewrite Hd; unfold prec in *; lia).
  unfold shift_of. rewrite Hd, Z.sub_diag. simpl Pos.shiftl. f_equal; lia.
Qed.

(** *** Adding the epoch back *)

Lemma Number_of_EPOCH :
  Number_of_BigInt EPOCH = S754_finite false 5816608358400000 (-12).
Proof. reflexivity. Qed.

(** [Number(c * 2^k) + Number(EPOCH)] is exact when the sum is a 53-bit
    integer [m] times [2^e]. *)
Lemma add_back_epoch (c m : positive) (k e : Z) :
  0 <= k <= 64 -> Zpos c < 2 ^ prec ->
  Zpos (digits2_pos m) = prec -> 0 < e <= 64 ->
  Zpos c * 2 ^ k + EPOCH = Zpos m * 2 ^ e ->
  add (Number_of_BigInt (Zpos c * 2 ^ k)) (Number_of_BigInt EPOCH)
  = S754_finite false m e.
Proof.
  intros Hk Hc Hm He Hsum.
  assert (Hdc : Zpos (digits2_pos c) <= prec)
    by (apply digits2_pos_le; [unfold prec; lia | exact Hc]).
  assert (Hd0 : 0 < Zpos (digits2_pos c)) by lia.
  rewrite Number_of_scaled by (unfold prec, emax in *; lia).
  rewrite Number_of_EPOCH.
  set (ex := Zpos (digits2_pos c) - prec + k).
  apply add_scaled; [exact Hm | unfold prec, emax; lia | lia |].
  set (ez := Z.min ex (-12)).
  assert (Hez : ez <= ex /\ ez <= -12) by (unfold ez; lia).
  rewrite Zpos_shiftl. unfold shift_of. rewrite Z2N.id by lia.
  set (q := prec - Zpos (digits2_pos c)) in *.
  assert (H1 : 2 ^ q * 2 ^ (ex - ez) = 2 ^ k * 2 ^ (- ez)).
  { rewrite <- !Z.pow_add_r by (unfold ex, q in *; lia).
    f_equal; unfold ex, q; lia. }
  assert (H2 : 4096 * 2 ^ (-12 - ez) = 2 ^ (- ez)).
  { change 4096 with (2 ^ 12). rewrite <- Z.pow_add_r by lia. f_equal; lia. }
  assert (H3 : 2 ^ (e - ez) = 2 ^ e * 2 ^ (- ez)).
  { rewrite <- Z.pow_add_r by lia. f_equal; lia. }
  rewrite H3.
  replace (Zpos c * 2 ^ q * 2 ^ (ex - ez))
    with (Zpos c * (2 ^ q * 2 ^ (ex - ez))) by ring.
  replace (5816608358400000 * 2 ^ (-12 - ez))
    with (EPOCH * (4096 * 2 ^ (-12 - ez))) by (unfold EPOCH; ring).
  rewrite H1, H2.
  replace (Zpos m * (2 ^ e * 2 ^ (- ez))) with (Zpos m * 2 ^ e * 2 ^ (- ez)) by ring.
  rewrite <- Hsum. ring.
Qed.

(** A valid number whose value is an integer from 2^53 on has a mantissa of
    53 bits and a positive exponent. *)
Lemma valid_large_shape (t : number) (z : Z) :
  valid t = true -> integral_value t = Some z -> 2 ^ prec <= z ->
  exists m e, t = S754_finite false m e /\ Zpos (digits2_pos m) = prec /\
              1 <= e /\ z = Zpos m * 2 ^ e.
Proof.
  intros Hv Hi Hz.
  assert (Hpos : 0 < 2 ^ prec) by (unfold prec; lia).
  destruct t as [s | s | | s m e]; unfold integral_value in Hi; try congruence.
  - assert (z = 0) by congruence. lia.
  - unfold valid, valid_binary, bounded, canonical_mantissa in Hv.
    apply andb_true_iff in Hv. destruct Hv as [Hc _]. apply Z.eqb_eq in Hc.
    pose proof (digits2_pos_bounds m) as [_ Hu].
    destruct (0 <=? e) eqn:He.
    + apply Z.leb_le in He.
      assert (Ez : z = cond_Zopp s (Zpos m * 2 ^ e)) by congruence.
      assert (Hp : 0 < Zpos m * 2 ^ e)
        by (apply Z.mul_pos_pos; [lia | apply Z.pow_pos_nonneg; lia]).
      set (v := Zpos m * 2 ^ e) in *.
      destruct s; unfold cond_Zopp in Ez; [lia |].
      assert (Hd : Zpos (digits2_pos m) = prec)
        by (unfold fexp, emin, prec, emax in *; lia).
      exists m, e. split; [reflexivity |]. split; [exact Hd |].
      split; [| exact Ez].
      destruct (Z.eq_dec e 0) as [-> | Ne]; [| lia].
      unfold v in Ez. rewrite Z.pow_0_r, Z.mul_1_r in Ez. rewrite Hd in Hu. lia.
    + apply Z.leb_gt in He.
      assert (Hp : 0 < 2 ^ (- e)) by (apply Z.pow_pos_nonneg; lia).
      destruct (Zpos m mod 2 ^ (- e) =? 0); [| congruence].
      assert (Ez : z = cond_Zopp s (Zpos m / 2 ^ (- e))) by congruence.
      assert (Hq : 0 <= Zpos m / 2 ^ (- e) <= Zpos m).
      { split; [apply Z.div_pos; lia |].
        apply Z.div_le_upper_bound; [lia |]. nia. }
      assert (Hd : Zpos (digits2_pos m) <= prec)
        by (unfold fexp, emin, prec, emax in *; lia).
      assert (Zpos m < 2 ^ prec).
      { apply Z.lt_le_trans with (2 ^ Zpos (digits2_pos m)); [exact Hu |].
        apply Z.pow_le_mono_r; lia. }
      destruct s; unfold cond_Zopp in Ez; lia.
Qed.

Lemma add_back_epoch_Z (c : Z) (m : positive) (k e : Z) :
  0 <= k <= 64 -> 0 < c < 2 ^ prec ->
  Zpos (digits2_pos m) = prec -> 0 < e <= 64 ->
  c * 2 ^ k + EPOCH = Zpos m * 2 ^ e ->
  add (Number_of_BigInt (c * 2 ^ k)) (Number_of_BigInt EPOCH)
  = S754_finite false m e.
Proof.
  intros Hk Hc Hm He Hsum. destruct c as [| c | c]; try lia.
  apply add_back_epoch;
    [exact Hk | exact (proj2 Hc) | exact Hm | exact He | exact Hsum].
Qed.

(** The last integral number before [far_future]. Its distance to the epoch
    is no binary64 value, yet the sum with the epoch rounds back to it. *)
Lemma add_back_epoch_last :
  add (Number_of_BigInt (36893489567489507328 - EPOCH)) (Number_of_BigInt EPOCH)
  = S754_finite false 4503599800718934 13.
Proof. vm_compute. reflexivity. Qed.


(** ** Strings: trimming, reading and writing integers *)

Lemma trim_end_no_whitespace (s : string) :
  all_chars (fun c => negb (is_whitespace c)) s = true -> trim_end s = s.
Proof.
  induction s as [| c s IH]; simpl; [reflexivity |].
  intros H. apply andb_true_iff in H. destruct H as [Hc Hs].
  rewrite (IH Hs). apply negb_true_iff in Hc. rewrite Hc. now destruct s.
Qed.

Lemma trim_no_whitespace (s : string) :
  all_chars (fun c => negb (is_whitespace c)) s = true -> trim s = s.
Proof.
  intros H. unfold trim.
  replace (trim_start s) with s; [now apply trim_end_no_whitespace |].
  destruct s as [| c s]; simpl in *; [reflexivity |].
  apply andb_true_iff in H. destruct H as [Hc _].
  apply negb_true_iff in Hc. now rewrite Hc.
Qed.

Lemma trim_whitespace (s : string) :
  all_chars is_whitespace s = true -> trim s = EmptyString.
Proof.
  unfold trim. induction s as [| c s IH]; simpl; [reflexivity |].
  intros H. apply andb_true_iff in H. destruct H as [Hc Hs].
  rewrite Hc. now apply IH.
Qed.

Lemma all_chars_weaken (p q : ascii -> bool) (s : string) :
  (forall c, p c = true -> q c = true) ->
  all_chars p s = true -> all_chars q s = true.
Proof.
  intros Hpq. induction s as [| c s IH]; simpl; [reflexivity |].
  intros H. apply andb_true_iff in H. destruct H as [Hc Hs].
  now rewrite (Hpq c Hc), (IH Hs).
Qed.

Lemma all_chars_app (p : ascii -> bool) (s t : string) :
  all_chars p (s ++ t) = all_chars p s && all_chars p t.
Proof.
  induction s as [| c s IH]; simpl; [reflexivity |].
  now rewrite IH, andb_assoc.
Qed.

Lemma decimal_digit_cases (c : ascii) :
  is_decimal_digit c = true ->
  In c ["0"; "1"; "2"; "3"; "4"; "5"; "6"; "7"; "8"; "9"]%char.
Proof.
  destruct c as [[] [] [] [] [] [] [] []]; vm_compute; intros H;
    try discriminate H; tauto.
Qed.

Lemma decimal_digit_not_whitespace (c : ascii) :
  is_decimal_digit c = true -> negb (is_whitespace c) = true.
Proof.
  intros H. apply decimal_digit_cases in H. simpl in H.
  repeat (destruct H as [<- | H]; [reflexivity |]). contradiction.
Qed.

Lemma string_of_uint_digits (d : uint) :
  all_chars is_decimal_digit (NilEmpty.string_of_uint d) = true.
Proof. induction d; simpl; auto. Qed.

(** A string of decimal digits is read as a decimal literal. *)
Lemma parse_integer_literal_digits (s : string) :
  all_chars is_decimal_digit s = true ->
  parse_integer_literal s = parse_decimal s.
Proof.
  destruct s as [| c1 s1]; [reflexivity |].
  simpl all_chars. intros H. apply andb_true_iff in H. destruct H as [H1 Hs].
  apply decimal_digit_cases in H1. simpl in H1.
  destruct H1 as [<- | H1].
  - destruct s1 as [| c2 s2]; [reflexivity |].
    simpl all_chars in Hs. apply andb_true_iff in Hs. destruct Hs as [H2 _].
    apply decimal_digit_cases in H2. simpl in H2.
    repeat (destruct H2 as [<- | H2]; [reflexivity |]). contradiction.
  - repeat (destruct H1 as [<- | H1]; [reflexivity |]). contradiction.
Qed.

Lemma parse_decimal_to_uint (p : positive) :
  parse_decimal (NilEmpty.string_of_uint (Pos.to_uint p)) = Some (Zpos p).
Proof.
  unfold parse_decimal.
  pose proof (Unsigned.to_uint_nonnil p) as Hn.
  pose proof (NilZero.usu (Pos.to_uint p) Hn) as Hu.
  unfold NilZero.string_of_uint in Hu.
  destruct (Pos.to_uint p) eqn:Hp; try congruence;
    rewrite Hu; simpl option_map; unfold Z.of_uint; rewrite <- Hp;
    now rewrite Unsigned.of_to.
Qed.

(** Reading what [toString] wrote gives the integer back. *)
Lemma StringToBigInt_toString (z : Z) :
  StringToBigInt (BigInt_toString z) = Some z.
Proof.
  unfold BigInt_toString, StringToBigInt.
  destruct z as [| p | p]; [reflexivity | |].
  - simpl Z.to_int. simpl NilZero.string_of_int.
    assert (Hs : NilZero.string_of_uint (Pos.to_uint p)
                 = NilEmpty.string_of_uint (Pos.to_uint p)).
    { pose proof (Unsigned.to_uint_nonnil p). now destruct (Pos.to_uint p). }
    rewrite Hs.
    pose proof (string_of_uint_digits (Pos.to_uint p)) as Hd.
    rewrite trim_no_whitespace
      by (eapply all_chars_weaken; [apply decimal_digit_not_whitespace | exact Hd]).
    pose proof (parse_decimal_to_uint p) as Hp.
    rewrite <- (parse_integer_literal_digits _ Hd) in Hp.
    destruct (NilEmpty.string_of_uint (Pos.to_uint p)); [discriminate Hp | exact Hp].
  - simpl Z.to_int. simpl NilZero.string_of_int.
    assert (Hs : NilZero.string_of_uint (Pos.to_uint p)
                 = NilEmpty.string_of_uint (Pos.to_uint p)).
    { pose proof (Unsigned.to_uint_nonnil p). now destruct (Pos.to_uint p). }
    rewrite Hs.
    pose proof (string_of_uint_digits (Pos.to_uint p)) as Hd.
    rewrite trim_no_whitespace.
    + change (option_map Z.opp (parse_decimal (NilEmpty.string_of_uint (Pos.to_uint p)))
              = Some (Zneg p)).
      now rewrite parse_decimal_to_uint.
    + cbn [all_chars]. apply andb_true_iff. split; [reflexivity |].
      eapply all_chars_weaken; [apply decimal_digit_not_whitespace | exact Hd].
Qed.

Lemma BigInt_of_String_toString (z : Z) :
  BigInt_of_String (BigInt_toString z) = Returned z.
Proof. unfold BigInt_of_String. now rewrite StringToBigInt_toString. Qed.

Lemma BigInt_toString_inj (a b : Z) :
  BigInt_toString a = BigInt_toString b -> a = b.
Proof.
  intros H. apply (f_equal StringToBigInt) in H.
  rewrite !StringToBigInt_toString in H. congruence.
Qed.

(** ** Binary rendering *)

Lemma length_app (s t : string) :
  String.length (s ++ t) = (String.length s + String.length t)%nat.
Proof. induction s as [| c s IH]; simpl; [reflexivity | now rewrite IH]. Qed.

Lemma length_repeat_char (c : ascii) (n : nat) :
  String.length (repeat_char c n) = n.
Proof. induction n as [| n IH]; simpl; [reflexivity | now rewrite IH]. Qed.

Lemma length_binary_digits (p : positive) (acc : string) :
  String.length (binary_digits p acc)
  = (Pos.to_nat (digits2_pos p) + String.length acc)%nat.
Proof.
  revert acc. induction p as [p IH | p IH |]; intros acc; simpl.
  - rewrite IH. simpl. lia.
  - rewrite IH. simpl. lia.
  - reflexivity.
Qed.

Lemma bits_binary_digits (p : positive) (acc : string) :
  all_chars is_bit (binary_digits p acc) = all_chars is_bit acc.
Proof.
  revert acc. induction p as [p IH | p IH |]; intros acc; simpl;
    try rewrite IH; reflexivity.
Qed.

Lemma bits_repeat_zero (n : nat) : all_chars is_bit (repeat_char "0" n) = true.
Proof. induction n as [| n IH]; simpl; [reflexivity | exact IH]. Qed.

Lemma parse_digits_zero (s : string) (a : Z) :
  parse_digits 2 (String "0" s) a = parse_digits 2 s (a * 2 + 0).
Proof. reflexivity. Qed.

Lemma parse_digits_one (s : string) (a : Z) :
  parse_digits 2 (String "1" s) a = parse_digits 2 s (a * 2 + 1).
Proof. reflexivity. Qed.

Lemma parse_binary_digits (p : positive) (acc : string) (a : Z) :
  parse_digits 2 (binary_digits p acc) a
  = parse_digits 2 acc (a * 2 ^ Zpos (digits2_pos p) + Zpos p).
Proof.
  revert acc a. induction p as [p IH | p IH |]; intros acc a.
  - simpl binary_digits. rewrite IH, parse_digits_one. simpl digits2_pos.
    rewrite Pos2Z.inj_succ, Z.pow_succ_r by lia.
    f_equal. rewrite (Pos2Z.inj_xI p). ring.
  - simpl binary_digits. rewrite IH, parse_digits_zero. simpl digits2_pos.
    rewrite Pos2Z.inj_succ, Z.pow_succ_r by lia.
    f_equal. rewrite (Pos2Z.inj_xO p). ring.
  - simpl binary_digits. rewrite parse_digits_one. f_equal.
Qed.

Lemma parse_leading_zeros (n : nat) (s : string) :
  parse_digits 2 (repeat_char "0" n ++ s) 0 = parse_digits 2 s 0.
Proof.
  induction n as [| n IH]; [reflexivity |].
  simpl repeat_char. simpl append. rewrite parse_digits_zero. exact IH.
Qed.

(** The padded binary rendering of an unsigned 64-bit integer. *)
Lemma padded_binary (z : Z) :
  0 <= z < 2 ^ 64 ->
  let b := padStart 64 "0" (BigInt_toString2 z) in
  String.length b = 64%nat /\ all_chars is_bit b = true /\ parse_radix 2 b = Some z.
Proof.
  intros Hz. destruct z as [| p | p]; [now vm_compute | | lia].
  assert (Hd : Zpos (digits2_pos p) <= 64) by (apply digits2_pos_le; lia).
  simpl. unfold padStart. simpl BigInt_toString2.
  set (bits := binary_digits p EmptyString).
  assert (Hl : String.length bits = Pos.to_nat (digits2_pos p))
    by (unfold bits; rewrite length_binary_digits; simpl; lia).
  repeat split.
  - rewrite length_app, length_repeat_char, Hl. lia.
  - rewrite all_chars_app, bits_repeat_zero. unfold bits.
    now rewrite bits_binary_digits.
  - unfold parse_radix.
    assert (Hp : parse_digits 2 (repeat_char "0" (64 - String.length bits) ++ bits) 0
                 = Some (Zpos p)).
    { rewrite parse_leading_zeros. unfold bits. rewrite parse_binary_digits.
      simpl. reflexivity. }
    destruct (repeat_char "0" (64 - String.length bits) ++ bits) eqn:E; [| exact Hp].
    apply (f_equal String.length) in E. rewrite length_app, Hl in E. simpl in E. lia.
Qed.

(** ** The bit fields of a generated integer *)

Lemma shiftr_compose (b i : Z) :
  0 <= i < 2 ^ 17 -> Z.shiftr (compose b i) 22 = b - EPOCH.
Proof.
  intros Hi. unfold compose.
  rewrite !Z.shiftr_lor, Z.shiftr_shiftl_l by lia.
  change (Z.shiftr (Z.shiftl 1 17) 22) with 0.
  rewrite Z.shiftr_div_pow2, Z.div_small by lia.
  now rewrite Z.shiftl_0_r, !Z.lor_0_r.
Qed.

Lemma land_compose (b i : Z) :
  0 <= i < 2 ^ 12 -> Z.land (compose b i) 4095 = i.
Proof.
  intros Hi. unfold compose.
  rewrite !Z.land_lor_distr_l.
  change (Z.land (Z.shiftl 1 17) 4095) with 0.
  change 4095 with (Z.ones 12). rewrite !Z.land_ones by lia.
  rewrite Z.shiftl_mul_pow2 by lia.
  replace ((b - EPOCH) * 2 ^ 22) with ((b - EPOCH) * 2 ^ 10 * 2 ^ 12) by ring.
  rewrite Z.mod_mul by lia. rewrite Z.mod_small by lia.
  reflexivity.
Qed.

Lemma embedded_range (c : Z) : 0 <= c -> 0 <= embedded c <= 4094.
Proof. unfold embedded. destruct (4095 <=? c) eqn:H; lia. Qed.

Lemma embedded_mod (c : Z) : 0 <= c <= 4095 -> embedded c = c mod 4095.
Proof.
  intros H. unfold embedded. destruct (4095 <=? c) eqn:E.
  - replace c with 4095 by lia. reflexivity.
  - rewrite Z.mod_small; lia.
Qed.

(** ** What one call of [generate] does *)

Lemma integral_not_NaN (t : number) (b : Z) :
  integral_value t = Some b -> isNaN t = false.
Proof. destruct t; simpl; congruence. Qed.

(** On an integral number, [generate] embeds the counter (reset first when
    it has reached 4095) and leaves the counter one above what it embedded. *)
Lemma generate_integral (t : number) (b : Z) (w : world) :
  integral_value t = Some b ->
  generate (VNumber t) w
  = (Returned (BigInt_toString (compose b (embedded (increment w)))),
     {| increment := embedded (increment w) + 1; clock := clock w |}).
Proof.
  intros Hb. unfold generate, bind, ret. simpl.
  rewrite (integral_not_NaN t b Hb).
  unfold get_increment, lift, BigInt_of_Number, post_increment, bind, ret, embedded.
  rewrite Hb.
  destruct (4095 <=? increment w); reflexivity.
Qed.

Lemma generate_Date (t : number) (w : world) :
  generate (VDate t) w = generate (VNumber t) w.
Proof. reflexivity. Qed.

Lemma generate_default (w : world) :
  generate VUndefined w = generate (VNumber (clock w)) w.
Proof. reflexivity. Qed.

(** Whatever number it is given, a call leaves the world as it was, or with
    the counter reset, or with the counter one above the embedded
    increment. *)
Lemma generate_world_number (t : number) (w : world) :
  generate (VNumber t) w = (Thrown (invalid_timestamp (VNumber t)), w) \/
  (4095 <= increment w /\
   generate (VNumber t) w
   = (Thrown RangeError, {| increment := 0; clock := clock w |})) \/
  (increment w < 4095 /\ generate (VNumber t) w = (Thrown RangeError, w)) \/
  (exists s,
     generate (VNumber t) w
     = (Returned s, {| increment := embedded (increment w) + 1; clock := clock w |})).
Proof.
  destruct (integral_value t) as [b |] eqn:Hb.
  - do 3 right. rewrite (generate_integral t b w Hb). eexists. reflexivity.
  - destruct (isNaN t) eqn:Hn.
    + left. unfold generate, bind, ret, throw. simpl. now rewrite Hn.
    + right. unfold generate, bind, ret. simpl. rewrite Hn.
      unfold get_increment, lift, BigInt_of_Number, set_increment, bind, ret.
      rewrite Hb. destruct (4095 <=? increment w) eqn:Hc; simpl.
      * left. apply Z.leb_le in Hc. auto.
      * right; left. apply Z.leb_gt in Hc. split; [exact Hc | now destruct w].
Qed.

(** The same for every argument. *)
Lemma generate_world (v : value) (w : world) :
  exec (generate v) w = w \/
  (4095 <= increment w /\
   exec (generate v) w = {| increment := 0; clock := clock w |} /\
   eval (generate v) w = Thrown RangeError) \/
  ((exists s, eval (generate v) w = Returned s) /\
   exec (generate v) w
   = {| increment := embedded (increment w) + 1; clock := clock w |}).
Proof.
  assert (Hnum : forall t, generate v w = generate (VNumber t) w ->
            exec (generate v) w = w \/
            (4095 <= increment w /\
             exec (generate v) w = {| increment := 0; clock := clock w |} /\
             eval (generate v) w = Thrown RangeError) \/
            ((exists s, eval (generate v) w = Returned s) /\
             exec (generate v) w
             = {| increment := embedded (increment w) + 1; clock := clock w |})).
  { intros t Ht. unfold eval, exec. rewrite Ht.
    destruct (generate_world_number t w)
      as [H | [[Hc H] | [[Hc H] | [s H]]]]; rewrite H; cbn [fst snd]; eauto. }
  destruct v; try (left; reflexivity).
  - exact (Hnum (clock w) (generate_default w)).
  - exact (Hnum x eq_refl).
  - exact (Hnum timeValue (generate_Date timeValue w)).
Qed.

Lemma generate_NaN (w : world) :
  generate (VNumber NaN) w = (Thrown (invalid_timestamp (VNumber NaN)), w).
Proof. reflexivity. Qed.

(** Past the guard, the only failure is the RangeError of the conversion to
    a bigint. *)
Lemma generate_not_NaN (t : number) (w : world) :
  isNaN t = false ->
  eval (generate (VNumber t)) w
  = match integral_value t with
    | Some b => Returned (BigInt_toString (compose b (embedded (increment w))))
    | None => Thrown RangeError
    end.
Proof.
  intros Hn. destruct (integral_value t) as [b |] eqn:Hb.
  - unfold eval. now rewrite (generate_integral t b w Hb).
  - unfold eval, generate, bind, ret. simpl. rewrite Hn.
    unfold get_increment, lift, BigInt_of_Number, set_increment, bind, ret.
    rewrite Hb. now destruct (4095 <=? increment w).
Qed.

Lemma InvalidTimestamp_number (t : number) (w : world) :
  InvalidTimestamp (eval (generate (VNumber t)) w) <-> t = NaN.
Proof.
  split.
  - intros [msg H]. destruct (isNaN t) eqn:Hn.
    + destruct t; simpl in Hn; try discriminate Hn. reflexivity.
    + rewrite (generate_not_NaN t w Hn) in H.
      destruct (integral_value t); discriminate H.
  - intros ->. eexists. unfold eval. rewrite generate_NaN. reflexivity.
Qed.

(** The counter reaches 4095 after 4095 calls. *)
Lemma counter_reaches_4095 :
  exec (generate_many 4095 (VNumber (Number_of_BigInt EPOCH))) (initial NaN)
  = {| increment := 4095; clock := NaN |}.
Proof. vm_compute. reflexivity. Qed.

(** ** Runs of calls *)

Lemma generate_many_integral (n : nat) (t : number) (b : Z) (w : world) :
  integral_value t = Some b -> counter_in_range w ->
  eval (generate_many n (VNumber t)) w
  = Returned (map (fun j => BigInt_toString
                              (compose b ((increment w + Z.of_nat j) mod 4095)))
                  (seq 0 n)).
Proof.
  intros Hb. revert w. induction n as [| n IH]; intros w Hw; [reflexivity |].
  unfold eval. cbn [generate_many]. unfold bind at 1.
  rewrite (generate_integral t b w Hb).
  set (w' := {| increment := embedded (increment w) + 1; clock := clock w |}).
  assert (Hw' : counter_in_range w').
  { unfold counter_in_range, w'. cbn [increment].
    pose proof (embedded_range (increment w)). unfold counter_in_range in Hw. lia. }
  specialize (IH w' Hw'). unfold eval in IH. unfold bind, ret.
  destruct (generate_many n (VNumber t) w') as [o w'']. cbn [fst] in IH. subst o.
  cbn [fst]. f_equal. cbn [seq map]. f_equal.
  - rewrite Z.add_0_r, embedded_mod by exact Hw. reflexivity.
  - rewrite <- seq_shift, map_map. apply map_ext. intros j.
    unfold w'. cbn [increment]. do 2 f_equal.
    rewrite embedded_mod by exact Hw.
    rewrite Nat2Z.inj_succ.
    replace (increment w + Z.succ (Z.of_nat j))
      with (increment w + (1 + Z.of_nat j)) by lia.
    rewrite <- Z.add_assoc. now rewrite Z.add_mod_idemp_l by lia.
Qed.

Lemma embedded_increment_toString (b i : Z) (w : world) :
  0 <= i < 2 ^ 12 ->
  embedded_increment (BigInt_toString (compose b i)) w
  = (Returned (Number_of_BigInt i), w).
Proof.
  intros Hi. unfold embedded_increment, deconstruct, bind, lift, ret.
  rewrite BigInt_of_String_toString. cbn [Typings.increment].
  now rewrite land_compose.
Qed.

Lemma mapM_map_pure {A B C} (f : B -> M C) (h : A -> B) (g : A -> C)
      (l : list A) (w : world) :
  (forall a, In a l -> f (h a) w = (Returned (g a), w)) ->
  mapM f (map h l) w = (Returned (map g l), w).
Proof.
  induction l as [| a l IH]; intros H; [reflexivity |].
  cbn [map mapM]. unfold bind at 1. rewrite (H a (or_introl eq_refl)).
  unfold bind, ret. rewrite IH by (intros a' Ha'; apply H; now right).
  reflexivity.
Qed.

Lemma firstn_seq_le (n m : nat) : (n <= m)%nat -> firstn n (seq 0 m) = seq 0 n.
Proof.
  intros H. replace m with (n + (m - n))%nat by lia.
  rewrite seq_app, firstn_app, length_seq, Nat.sub_diag.
  cbn [firstn]. rewrite app_nil_r.
  rewrite <- (length_seq n 0) at 1. apply firstn_all.
Qed.

(** The increments embedded by a run from the counter at 0 cycle with
    period 4095. *)
Lemma increments_of_run_integral (n : nat) (t : number) (b : Z) (now : number) :
  integral_value t = Some b ->
  eval (increments_of_run n (VNumber t)) (initial now) = Returned (cycle 4095 n).
Proof.
  intros Hb.
  assert (H0 : counter_in_range (initial now))
    by (unfold counter_in_range; simpl; lia).
  pose proof (generate_many_integral n t b (initial now) Hb H0) as Hl.
  unfold eval, increments_of_run, bind in *.
  destruct (generate_many n (VNumber t) (initial now)) as [o w']. cbn [fst] in Hl.
  subst o.
  rewrite mapM_map_pure
    with (g := fun j => Number_of_BigInt (Z.of_nat (j mod 4095))).
  - reflexivity.
  - intros j _. cbn [initial increment]. rewrite Z.add_0_l.
    rewrite embedded_increment_toString
      by (pose proof (Z.mod_pos_bound (Z.of_nat j) 4095); lia).
    now rewrite Nat2Z.inj_mod.
Qed.

(** The snowflakes of a run are pairwise different before the wrap-around,
    and the one at the wrap-around is the first one again. *)
Lemma run_collides_at_4095 (n : nat) (t : number) (b : Z) (now : number) :
  integral_value t = Some b -> (4095 < n)%nat ->
  exists l, eval (generate_many n (VNumber t)) (initial now) = Returned l /\
            List.length l = n /\
            NoDup (firstn 4095 l) /\ nth 4095 l EmptyString = nth 0 l EmptyString.
Proof.
  intros Hb Hn.
  assert (H0 : counter_in_range (initial now))
    by (unfold counter_in_range; simpl; lia).
  pose proof (generate_many_integral n t b (initial now) Hb H0) as Hl.
  cbn [initial increment] in Hl.
  set (F := fun j => BigInt_toString (compose b ((0 + Z.of_nat j) mod 4095))) in Hl.
  exists (map F (seq 0 n)). split; [exact Hl |].
  split; [now rewrite length_map, length_seq |]. split.
  - rewrite firstn_map, firstn_seq_le by lia.
    apply NoDup_map_NoDup_ForallPairs; [| apply seq_NoDup].
    intros i j Hi Hj E. apply in_seq in Hi, Hj. unfold F in E.
    apply BigInt_toString_inj in E.
    apply (f_equal (fun x => Z.land x 4095)) in E.
    rewrite !land_compose in E
      by (match goal with |- _ <= ?x mod _ < _ =>
            pose proof (Z.mod_pos_bound (0 + x) 4095) end;
          rewrite ?Z.add_0_l in *; lia).
    rewrite !Z.add_0_l, !Z.mod_small in E by lia. lia.
  - rewrite !(nth_indep (map F (seq 0 n)) EmptyString (F 0%nat))
      by (rewrite length_map, length_seq; lia).
    rewrite !map_nth, !seq_nth by lia. unfold F. reflexivity.
Qed.

(** ** The claims *)

(** C1, as the specification states it, fails: from the counter at 0 the
    4096th call embeds the increment 0, not 4095, and returns the snowflake
    of the first call again. *)
Lemma wraps_at_4096_fails :
  ~ wraps_at_4096 (Number_of_BigInt 1420070401000) (initial NaN).
Proof.
  intros [H _].
  pose (last := outcome_map (fun l : list number => nth 4095 l NaN)).
  assert (Hrun : last (eval (increments_of_run 4096
                               (VNumber (Number_of_BigInt 1420070401000)))
                            (initial NaN))
                 = Returned (Number_of_BigInt 0))
    by (vm_compute; reflexivity).
  assert (Hspec : last (Returned (cycle 4096 4096))
                  = Returned (Number_of_BigInt 4095))
    by (vm_compute; reflexivity).
  rewrite H, Hspec in Hrun. discriminate Hrun.
Qed.

(** C1, amended: from the counter at 0, 4096 calls in a row with the same
    integral timestamp embed the increments 0, 1, ..., 4094, 0 in that order;
    no two of the first 4095 calls return the same snowflake, and the 4096th
    call returns the snowflake of the first. *)
Theorem increments_wrap_at_4095 (now t : number) (b : Z) :
  integral_value t = Some b ->
  eval (increments_of_run 4096 (VNumber t)) (initial now)
  = Returned (cycle 4095 4096) /\
  exists l, eval (generate_many 4096 (VNumber t)) (initial now) = Returned l /\
            List.length l = 4096%nat /\
            NoDup (firstn 4095 l) /\ nth 4095 l EmptyString = nth 0 l EmptyString.
Proof.
  intros Hb. split.
  - now apply increments_of_run_integral with (b := b).
  - apply run_collides_at_4095 with (b := b); [exact Hb | lia].
Qed.

Lemma increments_wrap_at_4095_witness :
  eval (increments_of_run 4096 (VNumber (Number_of_BigInt 1420070401000)))
       (initial NaN)
  = Returned (cycle 4095 4096).
Proof.
  refine (proj1 (increments_wrap_at_4095 NaN (Number_of_BigInt 1420070401000)
                   1420070401000 _)).
  reflexivity.
Defined.

(** C2, as the specification states it, fails: [far_future] is an integral
    number after the epoch, yet the timestamp that comes back is the next
    binary64 value, because the conversions of [deconstruct] round. *)
Lemma roundtrip_far_future_fails :
  ~ roundtrip_exact far_future (initial NaN).
Proof.
  intros H.
  specialize (H 36893489567489515520 eq_refl eq_refl).
  assert (Hr : eval (roundtrip far_future) (initial NaN)
               = Returned (S754_finite false 4503599800718936 13))
    by (vm_compute; reflexivity).
  rewrite Hr in H.
  assert (He : EPOCH <= 36893489567489515520) by (unfold EPOCH; lia).
  assert (Hc : counter_in_range (initial NaN))
    by (unfold counter_in_range; simpl; lia).
  specialize (H He Hc). discriminate H.
Qed.

(** C2, amended: for every integral number [t] with
    [EPOCH <= t < 36893489567489515520], and whatever the counter holds
    within its range, [deconstruct(generate(t)).timestamp] is [t]. The
    bound is the value of [far_future], which is therefore the least
    integral number from the epoch on at which the round trip fails. Up to
    2^53 every step is exact; from there on [t] is a 53-bit integer times
    [2^e] with [1 <= e <= 13], and so is its distance to the epoch, except
    at the last number before [far_future], where the sum rounds back to
    [t]. *)
Theorem roundtrip_below_far_future (t : number) (z : Z) (w : world) :
  valid t = true -> integral_value t = Some z ->
  EPOCH <= z < 36893489567489515520 -> counter_in_range w ->
  eval (roundtrip t) w = Returned t.
Proof.
  intros Hv Hz Hr Hw.
  pose proof (embedded_range (increment w) (proj1 Hw)) as Hi.
  unfold eval, roundtrip, bind. rewrite (generate_integral t z w Hz).
  unfold deconstruct, bind, lift, ret. rewrite BigInt_of_String_toString.
  cbn [fst Typings.timestamp]. rewrite shiftr_compose by lia.
  f_equal.
  destruct (Z_lt_le_dec z (2 ^ prec)) as [Hs | Hl].
  - unfold EPOCH in Hr.
    rewrite add_exact; [| safe_bound | safe_bound |];
      replace (z - EPOCH + EPOCH) with z by lia; [| safe_bound].
    symmetry. apply valid_integral; try assumption; [lia | safe_bound].
  - destruct (valid_large_shape t z Hv Hz Hl) as (m & e & -> & Hd & He & Ez).
    pose proof (digits2_pos_bounds m) as [Hlo Hhi]. rewrite Hd in Hlo, Hhi.
    unfold prec in Hlo, Hhi. change (2 ^ (53 - 1)) with 4503599627370496 in Hlo.
    change (2 ^ 53) with 9007199254740992 in Hhi.
    assert (He' : e <= 13).
    { destruct (Z_le_gt_dec e 13) as [Hle | Hgt]; [exact Hle | exfalso].
      assert (2 ^ 14 <= 2 ^ e) by (apply Z.pow_le_mono_r; lia).
      change (2 ^ 14) with 16384 in *. nia. }
    assert (Hcases : e = 1 \/ e = 2 \/ e = 3 \/ e = 4 \/ e = 5 \/ e = 6 \/ e = 7 \/
                     e = 8 \/ e = 9 \/ e = 10 \/ e = 11 \/ e = 12 \/ e = 13) by lia.
    clear He He'. unfold EPOCH in Hr.
    repeat (destruct Hcases as [-> | Hcases]); [.. | subst e].
    1-12: match type of Ez with
          | _ = _ * 2 ^ ?e =>
              replace (z - EPOCH)
                with ((Zpos m - 346696875 * 2 ^ (12 - e)) * 2 ^ e)
                by (unfold EPOCH; lia);
              apply add_back_epoch_Z;
              [lia | unfold prec; lia | exact Hd | lia | unfold EPOCH; lia]
          end.
    destruct (Z_le_gt_dec (Zpos m) 4503599800718933) as [Hm | Hm].
    + replace (z - EPOCH) with ((2 * Zpos m - 346696875) * 2 ^ 12)
        by (unfold EPOCH; lia).
      apply add_back_epoch_Z;
        [lia | unfold prec; lia | exact Hd | lia | unfold EPOCH; lia].
    + assert (Em : m = 4503599800718934%positive) by lia. subst m.
      assert (Ez' : z = 36893489567489507328) by lia. subst z.
      exact add_back_epoch_last.
Qed.

Lemma roundtrip_below_far_future_witness :
  eval (roundtrip (S754_finite false 4503599800718934 13))
       {| increment := 7; clock := NaN |}
  = Returned (S754_finite false 4503599800718934 13).
Proof.
  apply (roundtrip_below_far_future (S754_finite false 4503599800718934 13)
           36893489567489507328).
  - reflexivity.
  - reflexivity.
  - unfold EPOCH. lia.
  - unfold counter_in_range. simpl. lia.
Defined.

(** C3, as the specification states it, fails: the integer of the scenario
    is not 4319917056, and ["4319917056"] decodes to the timestamp
    1420070401029 with workerId 30, processId 11 and increment 1024. *)
Lemma scenario_4319917056_fails :
  ~ scenario "4319917056" (initial NaN).
Proof.
  intros [H _]. vm_compute in H. discriminate H.
Qed.

(** C3, amended: generating at 1420070401000 with the counter at 0 yields
    the integer [(1000 << 22) | (1 << 17) | 0], which is 4194435072, as a
    decimal string, and ["4194435072"] decodes to the timestamp 1420070401000,
    workerId 1, processId 0 and increment 0. *)
Theorem scenario_4194435072 (now : number) :
  compose 1420070401000 0 = 4194435072 /\
  scenario "4194435072" (initial now).
Proof.
  split; [reflexivity |]. split; [reflexivity |].
  eexists. split; [reflexivity |]. cbn [Typings.timestamp Typings.workerId
    Typings.processId Typings.increment].
  repeat split; vm_compute; reflexivity.
Qed.

(** C4, as the specification states it, fails: on positive infinity the guard
    lets the argument through and the conversion to a bigint throws a
    RangeError, which is not the InvalidTimestamp error. *)
Lemma generate_Infinity_not_InvalidTimestamp :
  eval (generate (VNumber Infinity)) (initial NaN) = Thrown RangeError /\
  ~ rejects_non_finite (VNumber Infinity) (initial NaN).
Proof.
  split; [reflexivity |].
  unfold rejects_non_finite. intros [_ H].
  destruct H as [msg H]; [| discriminate H].
  simpl. discriminate.
Qed.

(** C4, amended: [generate] throws InvalidTimestamp exactly on the arguments
    its guard rejects: every value that is neither a number nor a Date (nor
    left out), and NaN, given as a number, as the time value of a Date or by
    the clock. *)
Theorem generate_InvalidTimestamp_iff (v : value) (w : world) :
  InvalidTimestamp (eval (generate v) w) <-> rejected w v.
Proof.
  destruct v; simpl rejected;
    try (split; [trivial | intros _; eexists; reflexivity]).
  - unfold eval. rewrite generate_default. exact (InvalidTimestamp_number (clock w) w).
  - apply InvalidTimestamp_number.
  - unfold eval. rewrite generate_Date. exact (InvalidTimestamp_number timeValue w).
Qed.

(** C5, as the specification states it, fails: with the counter at 4095, a
    call on positive infinity resets the counter to 0 and then throws. *)
Lemma failure_resets_full_counter :
  ~ failure_keeps_counter (VNumber Infinity) {| increment := 4095; clock := NaN |}.
Proof.
  intros H. specialize (H RangeError eq_refl). vm_compute in H. discriminate H.
Qed.

(** C5, amended: a call that throws InvalidTimestamp leaves the counter
    exactly as it was, and a call that throws any error never increments the
    counter: it leaves it as it was or, when the counter had reached 4095 and
    the error is the RangeError of the conversion, reset to 0. *)
Theorem failure_never_increments (v : value) (w : world) (e : error) :
  eval (generate v) w = Thrown e ->
  (InvalidTimestamp (eval (generate v) w) -> exec (generate v) w = w) /\
  (exec (generate v) w = w \/
   (4095 <= increment w /\ e = RangeError /\
    exec (generate v) w = {| increment := 0; clock := clock w |})).
Proof.
  intros He.
  destruct (generate_world v w) as [H | [(Hc & Hx & Hr) | ((s & Hs) & _)]].
  - split; [intros _; exact H | left; exact H].
  - split.
    + intros [msg Hm]. rewrite Hr in Hm. discriminate Hm.
    + right. repeat split; [exact Hc | congruence | exact Hx].
  - rewrite Hs in He. discriminate He.
Qed.

Lemma failure_never_increments_witness :
  exec (generate (VString "soon")) (initial NaN) = initial NaN.
Proof.
  refine (proj1 (failure_never_increments (VString "soon") (initial NaN)
                   (invalid_timestamp (VString "soon")) _) _).
  - reflexivity.
  - eexists. reflexivity.
Defined.

(** C6: [getTimestamp(s)] is [deconstruct(s).timestamp], and the two fail on
    the same strings, namely those that [BigInt] does not read. *)
Theorem getTimestamp_deconstruct (s : string) (w : world) :
  eval (getTimestamp s) w
  = outcome_map Typings.timestamp (eval (deconstruct s) w) /\
  ((exists e, eval (getTimestamp s) w = Thrown e) <->
   (exists e, eval (deconstruct s) w = Thrown e)) /\
  ((exists e, eval (getTimestamp s) w = Thrown e) <-> StringToBigInt s = None).
Proof.
  unfold eval, getTimestamp, deconstruct, bind, lift, ret, BigInt_of_String.
  destruct (StringToBigInt s) as [z |]; cbn [fst outcome_map Typings.timestamp].
  - split; [reflexivity |]. split; split; intros H.
    + destruct H as [e H]. discriminate H.
    + destruct H as [e H]. discriminate H.
    + destruct H as [e H]. discriminate H.
    + discriminate H.
  - split; [reflexivity |]. split; split; intros H; eauto.
Qed.

(** C7: for valid snowflakes [a] and [b], [calculateDuration(a, b)] is
    [Math.abs(getTimestamp(a) - getTimestamp(b))], is the same as
    [calculateDuration(b, a)], and is a non-negative integer. *)
Theorem calculateDuration_symmetric (a b : string) (w : world) :
  valid_snowflake a = true -> valid_snowflake b = true ->
  exists ta tb n,
    eval (getTimestamp a) w = Returned ta /\
    eval (getTimestamp b) w = Returned tb /\
    eval (calculateDuration a b) w = Returned (Math_abs (sub ta tb)) /\
    eval (calculateDuration b a) w = eval (calculateDuration a b) w /\
    eval (calculateDuration a b) w = Returned (Number_of_BigInt n) /\
    integral_value (Number_of_BigInt n) = Some n /\ 0 <= n.
Proof.
  unfold valid_snowflake. intros Ha Hb.
  destruct (StringToBigInt a) as [za |] eqn:Ea; [| discriminate Ha].
  destruct (StringToBigInt b) as [zb |] eqn:Eb; [| discriminate Hb].
  apply andb_true_iff in Ha, Hb. destruct Ha as [Ha0 Ha1], Hb as [Hb0 Hb1].
  apply Z.leb_le in Ha0, Hb0. apply Z.ltb_lt in Ha1, Hb1.
  assert (Hqa : 0 <= Z.shiftr za 22 < 2 ^ 42).
  { rewrite Z.shiftr_div_pow2 by lia. split; [apply Z.div_pos; lia |].
    apply Z.div_lt_upper_bound; lia. }
  assert (Hqb : 0 <= Z.shiftr zb 22 < 2 ^ 42).
  { rewrite Z.shiftr_div_pow2 by lia. split; [apply Z.div_pos; lia |].
    apply Z.div_lt_upper_bound; lia. }
  set (qa := Z.shiftr za 22) in *. set (qb := Z.shiftr zb 22) in *.
  assert (Ta : add (Number_of_BigInt qa) (Number_of_BigInt EPOCH)
               = Number_of_BigInt (qa + EPOCH))
    by (apply add_exact; safe_bound).
  assert (Tb : add (Number_of_BigInt qb) (Number_of_BigInt EPOCH)
               = Number_of_BigInt (qb + EPOCH))
    by (apply add_exact; safe_bound).
  assert (Dab : Math_abs (sub (Number_of_BigInt (qa + EPOCH))
                              (Number_of_BigInt (qb + EPOCH)))
                = Number_of_BigInt (Z.abs (qa - qb))).
  { rewrite sub_exact, abs_exact by safe_bound. f_equal. lia. }
  assert (Dba : Math_abs (sub (Number_of_BigInt (qb + EPOCH))
                              (Number_of_BigInt (qa + EPOCH)))
                = Number_of_BigInt (Z.abs (qa - qb))).
  { rewrite sub_exact, abs_exact by safe_bound. f_equal. lia. }
  exists (Number_of_BigInt (qa + EPOCH)), (Number_of_BigInt (qb + EPOCH)),
         (Z.abs (qa - qb)).
  unfold eval, calculateDuration, getTimestamp, bind, lift, ret, BigInt_of_String.
  rewrite Ea, Eb. cbn [fst]. fold qa qb. rewrite Ta, Tb, Dab, Dba.
  repeat split; try reflexivity.
  - apply integral_value_exact. safe_bound.
  - lia.
Qed.

Lemma calculateDuration_symmetric_witness :
  exists ta tb n,
    eval (getTimestamp "4194435072") (initial NaN) = Returned ta /\
    eval (getTimestamp "8388739329") (initial NaN) = Returned tb /\
    eval (calculateDuration "4194435072" "8388739329") (initial NaN)
    = Returned (Math_abs (sub ta tb)) /\
    eval (calculateDuration "8388739329" "4194435072") (initial NaN)
    = eval (calculateDuration "4194435072" "8388739329") (initial NaN) /\
    eval (calculateDuration "4194435072" "8388739329") (initial NaN)
    = Returned (Number_of_BigInt n) /\
    integral_value (Number_of_BigInt n) = Some n /\ 0 <= n.
Proof.
  apply (calculateDuration_symmetric "4194435072" "8388739329" (initial NaN));
    reflexivity.
Defined.

(** C8, as the specification states it, fails: ["18446744073709551616"]
    reads as the integer 2^64, whose binary rendering has 65 characters,
    because [padStart] never truncates. *)
Lemma binary_of_2_pow_64_fails :
  ~ binary_rendering "18446744073709551616" (initial NaN).
Proof.
  intros H. destruct (H (2 ^ 64) eq_refl) as (d & Hd & Hl & _).
  vm_compute in Hd. injection Hd as <-. vm_compute in Hl. discriminate Hl.
Qed.

(** C8, amended: for every string that reads as an integer [z] with
    [0 <= z < 2^64], [deconstruct(s).binary] has exactly 64 characters, each
    of them ['0'] or ['1'], and read in base 2 it is [z]. *)
Theorem binary_of_valid_snowflake (s : string) (w : world) :
  valid_snowflake s = true -> binary_rendering s w.
Proof.
  unfold valid_snowflake, binary_rendering. intros Hs z Hz.
  rewrite Hz in Hs. apply andb_true_iff in Hs. destruct Hs as [H0 H1].
  apply Z.leb_le in H0. apply Z.ltb_lt in H1.
  unfold eval, deconstruct, bind, lift, ret, BigInt_of_String. rewrite Hz.
  eexists. split; [reflexivity |]. cbn [Typings.binary].
  exact (padded_binary z (conj H0 H1)).
Qed.

Lemma binary_of_valid_snowflake_witness :
  binary_rendering "4194435072" (initial NaN).
Proof.
  apply (binary_of_valid_snowflake "4194435072" (initial NaN)). reflexivity.
Defined.

(** C9: a call of [generate], whatever its argument, keeps the counter in
    [0, 4095], and no other operation changes the counter. *)
Theorem counter_stays_in_range (v : value) (w : world) :
  counter_in_range w ->
  counter_in_range (exec (generate v) w) /\
  (forall s, exec (deconstruct s) w = w) /\
  (forall s, exec (getTimestamp s) w = w) /\
  (forall a b, exec (calculateDuration a b) w = w) /\
  exec get_EPOCH w = w.
Proof.
  unfold counter_in_range. intros Hw. split; [| repeat split].
  - destruct (generate_world v w) as [H | [(_ & H & _) | (_ & H)]]; rewrite H.
    + exact Hw.
    + simpl. lia.
    + simpl. pose proof (embedded_range (increment w)). lia.
  - intros s. unfold exec, deconstruct, bind, lift, ret.
    now destruct (BigInt_of_String s).
  - intros s. unfold exec, getTimestamp, bind, lift, ret.
    now destruct (BigInt_of_String s).
  - intros a b. unfold exec, calculateDuration, getTimestamp, bind, lift, ret.
    destruct (BigInt_of_String a); [| reflexivity].
    now destruct (BigInt_of_String b).
Qed.

Lemma counter_stays_in_range_witness :
  counter_in_range
    (exec (generate (VNumber (Number_of_BigInt 1420070401000)))
          {| increment := 4095; clock := NaN |}).
Proof.
  refine (proj1 (counter_stays_in_range _ _ _)).
  unfold counter_in_range. simpl. lia.
Defined.

(** C10: [deconstruct] and [getTimestamp] take the empty string, and every
    string of white space only, for the integer 0 and raise no error: the
    timestamp is the epoch, and workerId, processId and increment are 0. *)
Theorem whitespace_is_zero (s : string) (w : world) :
  all_chars is_whitespace s = true ->
  eval (deconstruct s) w
  = Returned {| Typings.timestamp := Number_of_BigInt EPOCH;
                Typings.workerId := Number_of_BigInt 0;
                Typings.processId := Number_of_BigInt 0;
                Typings.increment := Number_of_BigInt 0;
                Typings.binary := repeat_char "0" 64 |} /\
  eval (getTimestamp s) w = Returned (Number_of_BigInt EPOCH) /\
  eval (getTimestamp s) w = eval get_EPOCH w.
Proof.
  intros Hs.
  assert (Hz : StringToBigInt s = Some 0)
    by (unfold StringToBigInt; now rewrite trim_whitespace).
  unfold eval, deconstruct, getTimestamp, get_EPOCH, bind, lift, ret,
    BigInt_of_String.
  rewrite Hz. cbn [fst].
  repeat split; vm_compute; reflexivity.
Qed.

Lemma whitespace_is_zero_witness :
  all_chars is_whitespace "   " = true /\
  eval (getTimestamp "   ") (initial NaN) = Returned (Number_of_BigInt EPOCH).
Proof.
  split; [reflexivity |].
  refine (proj1 (proj2 (whitespace_is_zero "   " (initial NaN) _))).
  reflexivity.
Defined.

(** ** Further properties of the methods *)

(** *** The layout of a generated integer *)

Lemma land_shiftl_low (x n y : Z) :
  0 <= n -> 0 <= y < 2 ^ n -> Z.land (Z.shiftl x n) y = 0.
Proof.
  intros Hn Hy. apply Z.bits_inj'. intros k Hk.
  rewrite Z.land_spec, Z.bits_0.
  destruct (Z.lt_ge_cases k n) as [H | H].
  - now rewrite Z.shiftl_spec_low.
  - destruct (Z.eq_dec y 0) as [-> | Ny].
    + now rewrite Z.bits_0, andb_false_r.
    + rewrite (Z.bits_above_log2 y k), andb_false_r; [reflexivity | lia |].
      apply Z.lt_le_trans with n; [| exact H].
      apply Z.log2_lt_pow2; lia.
Qed.

Lemma lor_shiftl_low (x n y : Z) :
  0 <= n -> 0 <= y < 2 ^ n -> Z.lor (Z.shiftl x n) y = x * 2 ^ n + y.
Proof.
  intros Hn Hy. pose proof (land_shiftl_low x n y Hn Hy) as H.
  rewrite <- (Z.lxor_lor _ _ H), <- (Z.add_nocarry_lxor _ _ H).
  now rewrite Z.shiftl_mul_pow2.
Qed.

(** The fields of a generated integer do not overlap: the bitwise or is a
    sum. *)
Lemma compose_sum (b i : Z) :
  0 <= i < 2 ^ 17 -> compose b i = (b - EPOCH) * 2 ^ 22 + 2 ^ 17 + i.
Proof.
  intros Hi. unfold compose. rewrite <- Z.lor_assoc.
  rewrite (lor_shiftl_low 1 17 i) by lia.
  rewrite lor_shiftl_low by lia. lia.
Qed.

Lemma worker_of_compose (b i : Z) :
  0 <= i < 2 ^ 12 -> Z.land (Z.shiftr (compose b i) 17) 31 = 1.
Proof.
  intros Hi. rewrite compose_sum by lia.
  change 31 with (Z.ones 5). rewrite Z.land_ones, Z.shiftr_div_pow2 by lia.
  change (2 ^ 22) with 4194304. change (2 ^ 17) with 131072.
  change (2 ^ 5) with 32. change (2 ^ 12) with 4096 in Hi.
  Z.div_mod_to_equations. lia.
Qed.

Lemma process_of_compose (b i : Z) :
  0 <= i < 2 ^ 12 -> Z.land (Z.shiftr (compose b i) 12) 31 = 0.
Proof.
  intros Hi. rewrite compose_sum by lia.
  change 31 with (Z.ones 5). rewrite Z.land_ones, Z.shiftr_div_pow2 by lia.
  change (2 ^ 22) with 4194304. change (2 ^ 17) with 131072.
  change (2 ^ 5) with 32. change (2 ^ 12) with 4096 in *.
  Z.div_mod_to_equations. lia.
Qed.

Lemma generated_integer_integral (t : number) (b : Z) (w : world) :
  integral_value t = Some b ->
  eval (generated_integer t) w = Returned (compose b (embedded (increment w))).
Proof.
  intros Hb. unfold eval, generated_integer, bind, lift.
  rewrite (generate_integral t b w Hb), BigInt_of_String_toString. reflexivity.
Qed.

(** X1: whatever integral timestamp it is given, before or after the epoch
    and of any size, and whatever the counter holds within its range,
    [generate] returns a string that reads back as an integer whose bits from
    22 upwards are the timestamp minus the epoch, and that [deconstruct]
    decodes to workerId 1, processId 0 and the increment that the call
    embedded. *)
Theorem generated_fields (t : number) (b : Z) (w : world) :
  integral_value t = Some b -> counter_in_range w ->
  exists s z d,
    eval (generate (VNumber t)) w = Returned s /\
    StringToBigInt s = Some z /\ Z.shiftr z 22 = b - EPOCH /\
    eval (deconstruct s) w = Returned d /\
    Typings.workerId d = Number_of_BigInt 1 /\
    Typings.processId d = Number_of_BigInt 0 /\
    Typings.increment d = Number_of_BigInt (embedded (increment w)).
Proof.
  intros Hb Hw.
  pose proof (embedded_range (increment w) (proj1 Hw)) as Hi.
  eexists. exists (compose b (embedded (increment w))). eexists.
  unfold eval. rewrite (generate_integral t b w Hb). cbn [fst].
  split; [reflexivity |].
  split; [apply StringToBigInt_toString |].
  split; [apply shiftr_compose; lia |].
  unfold deconstruct, bind, lift, ret. rewrite BigInt_of_String_toString.
  cbn [fst]. split; [reflexivity |].
  cbn [Typings.workerId Typings.processId Typings.increment].
  rewrite worker_of_compose, process_of_compose, land_compose by lia.
  repeat split.
Qed.

Lemma generated_fields_witness :
  exists s z d,
    eval (generate (VNumber (Number_of_BigInt 5))) {| increment := 4095; clock := NaN |}
    = Returned s /\
    StringToBigInt s = Some z /\ Z.shiftr z 22 = 5 - EPOCH /\
    eval (deconstruct s) {| increment := 4095; clock := NaN |} = Returned d /\
    Typings.workerId d = Number_of_BigInt 1 /\
    Typings.processId d = Number_of_BigInt 0 /\
    Typings.increment d = Number_of_BigInt (embedded 4095).
Proof.
  apply (generated_fields (Number_of_BigInt 5) 5 {| increment := 4095; clock := NaN |}).
  - reflexivity.
  - unfold counter_in_range. simpl. lia.
Defined.

(** X2: generated snowflakes sort by time. For two calls on integral
    timestamps, in whatever states of the counter, the integer of the first
    snowflake is below the integer of the second exactly when its timestamp
    is earlier, or the timestamps are the same and its embedded increment is
    smaller. *)
Theorem generated_order (t1 t2 : number) (b1 b2 : Z) (w1 w2 : world) :
  integral_value t1 = Some b1 -> integral_value t2 = Some b2 ->
  counter_in_range w1 -> counter_in_range w2 ->
  exists z1 z2,
    eval (generated_integer t1) w1 = Returned z1 /\
    eval (generated_integer t2) w2 = Returned z2 /\
    (z1 < z2 <->
     b1 < b2 \/ (b1 = b2 /\ embedded (increment w1) < embedded (increment w2))).
Proof.
  intros H1 H2 Hw1 Hw2.
  pose proof (embedded_range (increment w1) (proj1 Hw1)) as Hi1.
  pose proof (embedded_range (increment w2) (proj1 Hw2)) as Hi2.
  exists (compose b1 (embedded (increment w1))), (compose b2 (embedded (increment w2))).
  rewrite (generated_integer_integral t1 b1 w1 H1).
  rewrite (generated_integer_integral t2 b2 w2 H2).
  split; [reflexivity |]. split; [reflexivity |].
  rewrite !compose_sum by lia.
  change (2 ^ 22) with 4194304. change (2 ^ 17) with 131072. lia.
Qed.

Lemma generated_order_witness :
  exists z1 z2,
    eval (generated_integer (Number_of_BigInt 1420070401000))
         {| increment := 4000; clock := NaN |} = Returned z1 /\
    eval (generated_integer (Number_of_BigInt 1420070401001)) (initial NaN)
    = Returned z2 /\
    (z1 < z2 <->
     1420070401000 < 1420070401001 \/
     (1420070401000 = 1420070401001 /\ embedded 4000 < embedded 0)).
Proof.
  apply (generated_order (Number_of_BigInt 1420070401000)
           (Number_of_BigInt 1420070401001) 1420070401000 1420070401001
           {| increment := 4000; clock := NaN |} (initial NaN));
    try reflexivity; unfold counter_in_range; simpl; lia.
Defined.

(** X3: the outcome of [generate] is decided by the number it takes its
    argument for. It returns a snowflake exactly when that number is
    integral, and it throws a RangeError exactly when that number is not NaN
    and not integral (an infinity or a number with a fraction). *)
Theorem generate_outcome (v : value) (w : world) :
  ((exists s, eval (generate v) w = Returned s) <->
   (exists x b, timestamp_number w v = Some x /\ integral_value x = Some b)) /\
  (eval (generate v) w = Thrown RangeError <->
   (exists x, timestamp_number w v = Some x /\ isNaN x = false /\
              integral_value x = None)).
Proof.
  assert (Hnum : forall x,
    ((exists s, eval (generate (VNumber x)) w = Returned s) <->
     (exists b, integral_value x = Some b)) /\
    (eval (generate (VNumber x)) w = Thrown RangeError <->
     (isNaN x = false /\ integral_value x = None))).
  { intros x. destruct (isNaN x) eqn:Hn.
    - assert (x = NaN) by (destruct x; simpl in Hn; try discriminate Hn; reflexivity).
      subst x.
      unfold eval. rewrite generate_NaN. cbn [fst]. split; split.
      + intros [s H]. discriminate H.
      + intros [b H]. discriminate H.
      + intros H. discriminate H.
      + intros [H _]. discriminate H.
    - rewrite (generate_not_NaN x w Hn).
      destruct (integral_value x) as [b |]; split; split.
      + intros _. now exists b.
      + intros _. eexists. reflexivity.
      + intros H. discriminate H.
      + intros [_ H]. discriminate H.
      + intros [s H]. discriminate H.
      + intros [b H]. discriminate H.
      + auto.
      + reflexivity. }
  assert (Hsome : forall x, generate v w = generate (VNumber x) w ->
                            timestamp_number w v = Some x ->
    ((exists s, eval (generate v) w = Returned s) <->
     (exists x b, timestamp_number w v = Some x /\ integral_value x = Some b)) /\
    (eval (generate v) w = Thrown RangeError <->
     (exists x, timestamp_number w v = Some x /\ isNaN x = false /\
                integral_value x = None))).
  { intros x Hg Hx. rewrite Hx. unfold eval. rewrite Hg.
    destruct (Hnum x) as [[A1 A2] [B1 B2]]. unfold eval in *. split; split.
    - intros H. destruct (A1 H) as [b Hb]. now exists x, b.
    - intros (x' & b & [= <-] & Hb). apply A2. now exists b.
    - intros H. exists x. split; [reflexivity | now apply B1].
    - intros (x' & [= <-] & H). now apply B2. }
  destruct v as [| | ? | x | ? | ? | | | timeValue |];
    [ exact (Hsome (clock w) (generate_default w) eq_refl)
    | | | exact (Hsome x eq_refl eq_refl)
    | | | | | exact (Hsome timeValue (generate_Date timeValue w) eq_refl)
    | ];
    (split; split;
     [ intros [? H]; cbv in H; discriminate H
     | intros (? & ? & H & _); discriminate H
     | intros H; cbv in H; discriminate H
     | intros (? & H & _); discriminate H ]).
Qed.

(** *** What [deconstruct] returns for any string *)

Lemma land_31 (x : Z) : 0 <= Z.land x 31 <= 31.
Proof.
  change 31 with (Z.ones 5) at 1 2. rewrite Z.land_ones by lia.
  pose proof (Z.mod_pos_bound x (2 ^ 5)). lia.
Qed.

Lemma land_4095 (x : Z) : 0 <= Z.land x 4095 <= 4095.
Proof.
  change 4095 with (Z.ones 12) at 1 2. rewrite Z.land_ones by lia.
  pose proof (Z.mod_pos_bound x (2 ^ 12)). lia.
Qed.

Lemma deconstruct_read (s : string) (z : Z) (w : world) :
  StringToBigInt s = Some z ->
  eval (deconstruct s) w
  = Returned {| Typings.timestamp :=
                  add (Number_of_BigInt (Z.shiftr z 22)) (Number_of_BigInt EPOCH);
                Typings.workerId := Number_of_BigInt (Z.land (Z.shiftr z 17) 31);
                Typings.processId := Number_of_BigInt (Z.land (Z.shiftr z 12) 31);
                Typings.increment := Number_of_BigInt (Z.land z 4095);
                Typings.binary := padStart 64 "0" (BigInt_toString2 z) |}.
Proof.
  intros Hz. unfold eval, deconstruct, bind, lift, ret, BigInt_of_String.
  now rewrite Hz.
Qed.

(** X4: for every string that [BigInt] reads, also a negative integer or
    one of more than 64 bits, [deconstruct] returns a workerId and a
    processId that are integers from 0 to 31 and an increment that is an
    integer from 0 to 4095. *)
Theorem deconstruct_fields_in_range (s : string) (z : Z) (w : world) :
  StringToBigInt s = Some z ->
  exists d worker process inc,
    eval (deconstruct s) w = Returned d /\
    integral_value (Typings.workerId d) = Some worker /\ 0 <= worker <= 31 /\
    integral_value (Typings.processId d) = Some process /\ 0 <= process <= 31 /\
    integral_value (Typings.increment d) = Some inc /\ 0 <= inc <= 4095.
Proof.
  intros Hz. rewrite (deconstruct_read s z w Hz).
  eexists. exists (Z.land (Z.shiftr z 17) 31), (Z.land (Z.shiftr z 12) 31),
    (Z.land z 4095).
  split; [reflexivity |].
  cbn [Typings.workerId Typings.processId Typings.increment].
  pose proof (land_31 (Z.shiftr z 17)). pose proof (land_31 (Z.shiftr z 12)).
  pose proof (land_4095 z).
  repeat split; try lia; apply integral_value_exact; safe_bound.
Qed.

Lemma deconstruct_fields_in_range_witness :
  exists d worker process inc,
    eval (deconstruct "-0042") (initial NaN) = Returned d /\
    integral_value (Typings.workerId d) = Some worker /\ 0 <= worker <= 31 /\
    integral_value (Typings.processId d) = Some process /\ 0 <= process <= 31 /\
    integral_value (Typings.increment d) = Some inc /\ 0 <= inc <= 4095.
Proof.
  apply (deconstruct_fields_in_range "-0042" (-42) (initial NaN)). reflexivity.
Defined.

(** X5: the fields that [deconstruct] returns for a valid snowflake put the
    snowflake together again: its integer is
    [(timestamp - EPOCH) * 2^22 + workerId * 2^17 + processId * 2^12 +
    increment]. *)
Theorem deconstruct_fields_recompose (s : string) (w : world) :
  valid_snowflake s = true ->
  exists d z time worker process inc,
    eval (deconstruct s) w = Returned d /\ StringToBigInt s = Some z /\
    integral_value (Typings.timestamp d) = Some time /\
    integral_value (Typings.workerId d) = Some worker /\
    integral_value (Typings.processId d) = Some process /\
    integral_value (Typings.increment d) = Some inc /\
    z = (time - EPOCH) * 2 ^ 22 + worker * 2 ^ 17 + process * 2 ^ 12 + inc.
Proof.
  unfold valid_snowflake. intros Hs.
  destruct (StringToBigInt s) as [z |] eqn:Hz; [| discriminate Hs].
  apply andb_true_iff in Hs. destruct Hs as [H0 H1].
  apply Z.leb_le in H0. apply Z.ltb_lt in H1.
  rewrite (deconstruct_read s z w Hz).
  assert (Hq : 0 <= Z.shiftr z 22 < 2 ^ 42).
  { rewrite Z.shiftr_div_pow2 by lia. split; [apply Z.div_pos; lia |].
    apply Z.div_lt_upper_bound; lia. }
  eexists. exists z, (Z.shiftr z 22 + EPOCH), (Z.land (Z.shiftr z 17) 31),
    (Z.land (Z.shiftr z 12) 31), (Z.land z 4095).
  split; [reflexivity |]. split; [reflexivity |].
  cbn [Typings.timestamp Typings.workerId Typings.processId Typings.increment].
  pose proof (land_31 (Z.shiftr z 17)). pose proof (land_31 (Z.shiftr z 12)).
  pose proof (land_4095 z).
  rewrite add_exact by safe_bound.
  repeat split; try (apply integral_value_exact; safe_bound).
  change 31 with (Z.ones 5). change 4095 with (Z.ones 12).
  rewrite !Z.land_ones, !Z.shiftr_div_pow2 by lia.
  change (2 ^ 22) with 4194304. change (2 ^ 17) with 131072.
  change (2 ^ 12) with 4096. change (2 ^ 5) with 32.
  Z.div_mod_to_equations. lia.
Qed.

Lemma deconstruct_fields_recompose_witness :
  exists d z time worker process inc,
    eval (deconstruct "4319917056") (initial NaN) = Returned d /\
    StringToBigInt "4319917056" = Some z /\
    integral_value (Typings.timestamp d) = Some time /\
    integral_value (Typings.workerId d) = Some worker /\
    integral_value (Typings.processId d) = Some process /\
    integral_value (Typings.increment d) = Some inc /\
    z = (time - EPOCH) * 2 ^ 22 + worker * 2 ^ 17 + process * 2 ^ 12 + inc.
Proof.
  apply (deconstruct_fields_recompose "4319917056" (initial NaN)). reflexivity.
Defined.

(** *** The binary rendering beyond 64 bits *)

Lemma digits2_pos_log2 (p : positive) :
  Zpos (digits2_pos p) = Z.log2 (Zpos p) + 1.
Proof.
  pose proof (digits2_pos_bounds p) as [Hl Hu].
  rewrite (Z.log2_unique (Zpos p) (Zpos (digits2_pos p) - 1)); [lia | lia |].
  split; [exact Hl |].
  now replace (Z.succ (Zpos (digits2_pos p) - 1)) with (Zpos (digits2_pos p)) by lia.
Qed.

Lemma bit_not_whitespace (c : ascii) :
  is_bit c = true -> negb (is_whitespace c) = true.
Proof.
  unfold is_bit. intros H. apply orb_true_iff in H.
  destruct H as [H | H]; apply Ascii.eqb_eq in H; subst c; reflexivity.
Qed.

(** The rendering of a non-negative integer of any size. *)
Lemma padded_binary_any (z : Z) :
  0 <= z ->
  let b := padStart 64 "0" (BigInt_toString2 z) in
  String.length b = Nat.max 64 (Z.to_nat (Z.log2 z + 1)) /\
  all_chars is_bit b = true /\ parse_radix 2 b = Some z.
Proof.
  intros Hz. destruct z as [| p | p]; [now vm_compute | | lia].
  cbv zeta. unfold padStart. simpl BigInt_toString2.
  set (bits := binary_digits p EmptyString).
  assert (Hl : String.length bits = Pos.to_nat (digits2_pos p))
    by (unfold bits; rewrite length_binary_digits; simpl; lia).
  repeat split.
  - rewrite length_app, length_repeat_char, Hl, <- digits2_pos_log2. lia.
  - rewrite all_chars_app, bits_repeat_zero. unfold bits.
    now rewrite bits_binary_digits.
  - unfold parse_radix.
    assert (Hp : parse_digits 2 (repeat_char "0" (64 - String.length bits) ++ bits) 0
                 = Some (Zpos p)).
    { rewrite parse_leading_zeros. unfold bits. rewrite parse_binary_digits.
      simpl. reflexivity. }
    destruct (repeat_char "0" (64 - String.length bits) ++ bits) eqn:E; [| exact Hp].
    apply (f_equal String.length) in E. rewrite length_app, Hl in E. simpl in E. lia.
Qed.

(** X6: [binary] never loses a bit. For every string that reads as a
    non-negative integer [z], of any size, the rendering has 64 characters
    or, beyond 64 bits, as many characters as [z] has bits; every character
    is ['0'] or ['1'], and read in base 2 the rendering is [z]. *)
Theorem binary_never_truncates (s : string) (z : Z) (w : world) :
  StringToBigInt s = Some z -> 0 <= z ->
  exists d, eval (deconstruct s) w = Returned d /\
            String.length (Typings.binary d)
            = Nat.max 64 (Z.to_nat (Z.log2 z + 1)) /\
            all_chars is_bit (Typings.binary d) = true /\
            parse_radix 2 (Typings.binary d) = Some z.
Proof.
  intros Hs Hz. rewrite (deconstruct_read s z w Hs).
  eexists. split; [reflexivity |]. cbn [Typings.binary].
  exact (padded_binary_any z Hz).
Qed.

Lemma binary_never_truncates_witness :
  exists d, eval (deconstruct "0x10000000000000000") (initial NaN) = Returned d /\
            String.length (Typings.binary d)
            = Nat.max 64 (Z.to_nat (Z.log2 18446744073709551616 + 1)) /\
            all_chars is_bit (Typings.binary d) = true /\
            parse_radix 2 (Typings.binary d) = Some 18446744073709551616.
Proof.
  apply (binary_never_truncates "0x10000000000000000" 18446744073709551616
           (initial NaN)).
  - reflexivity.
  - lia.
Defined.

(** X7: the binary rendering can be handed back. For every string that reads
    as a non-negative integer, [deconstruct("0b" + deconstruct(s).binary)]
    returns the same object as [deconstruct(s)]. *)
Theorem binary_reads_back (s : string) (z : Z) (w : world) :
  StringToBigInt s = Some z -> 0 <= z ->
  exists d, eval (deconstruct s) w = Returned d /\
            eval (deconstruct ("0b" ++ Typings.binary d)) w = Returned d.
Proof.
  intros Hs Hz. rewrite (deconstruct_read s z w Hs).
  eexists. split; [reflexivity |]. cbn [Typings.binary].
  destruct (padded_binary_any z Hz) as (_ & Hb & Hp).
  apply deconstruct_read.
  unfold StringToBigInt. rewrite trim_no_whitespace.
  - exact Hp.
  - cbn [append all_chars]. apply andb_true_iff. split; [reflexivity |].
    apply andb_true_iff. split; [reflexivity |].
    eapply all_chars_weaken; [apply bit_not_whitespace | exact Hb].
Qed.

Lemma binary_reads_back_witness :
  exists d, eval (deconstruct "4194435072") (initial NaN) = Returned d /\
            eval (deconstruct ("0b" ++ Typings.binary d)) (initial NaN) = Returned d.
Proof.
  apply (binary_reads_back "4194435072" 4194435072 (initial NaN)).
  - reflexivity.
  - lia.
Defined.

(** *** Timestamps of generated snowflakes *)

Lemma getTimestamp_read (s : string) (z : Z) (w : world) :
  StringToBigInt s = Some z ->
  getTimestamp s w
  = (Returned (add (Number_of_BigInt (Z.shiftr z 22)) (Number_of_BigInt EPOCH)), w).
Proof.
  intros Hz. unfold getTimestamp, bind, lift, ret, BigInt_of_String.
  now rewrite Hz.
Qed.

(** The timestamp read from a generated snowflake, when the timestamp and
    its distance to the epoch are safe integers. *)
Lemma getTimestamp_generated (b i : Z) (w : world) :
  0 <= i < 2 ^ 17 -> safe b -> safe (b - EPOCH) ->
  getTimestamp (BigInt_toString (compose b i)) w = (Returned (Number_of_BigInt b), w).
Proof.
  intros Hi Sb Sd.
  rewrite (getTimestamp_read _ _ w (StringToBigInt_toString (compose b i))).
  rewrite shiftr_compose by exact Hi.
  rewrite add_exact; [| exact Sd | safe_bound |];
    now replace (b - EPOCH + EPOCH) with b by lia.
Qed.

(** X8: the duration between two snowflakes generated one after the other is
    the distance between their timestamps, whatever increments they embed:
    for integral timestamps from 0 to [Number.MAX_SAFE_INTEGER],
    [calculateDuration(generate(t1), generate(t2))] is [|t1 - t2|]. *)
Theorem duration_of_generated_exact (t1 t2 : number) (z1 z2 : Z) (w : world) :
  integral_value t1 = Some z1 -> integral_value t2 = Some z2 ->
  0 <= z1 <= MAX_SAFE_INTEGER -> 0 <= z2 <= MAX_SAFE_INTEGER ->
  counter_in_range w ->
  eval (duration_of_generated t1 t2) w = Returned (Number_of_BigInt (Z.abs (z1 - z2))).
Proof.
  intros H1 H2 R1 R2 Hw.
  pose proof (embedded_range (increment w) (proj1 Hw)) as Hi1.
  unfold eval, duration_of_generated, bind.
  rewrite (generate_integral t1 z1 w H1).
  set (w1 := {| increment := embedded (increment w) + 1; clock := clock w |}).
  rewrite (generate_integral t2 z2 w1 H2).
  assert (Hi2 : 0 <= embedded (increment w1) <= 4094)
    by (apply embedded_range; unfold w1; cbn [increment]; lia).
  unfold calculateDuration, bind, ret.
  rewrite !getTimestamp_generated by (try safe_bound; lia).
  cbn [fst]. now rewrite sub_exact, abs_exact by safe_bound.
Qed.

Lemma duration_of_generated_exact_witness :
  eval (duration_of_generated (Number_of_BigInt 1700000000123)
                              (Number_of_BigInt 1420070400000))
       {| increment := 4094; clock := NaN |}
  = Returned (Number_of_BigInt (Z.abs (1700000000123 - 1420070400000))).
Proof.
  apply (duration_of_generated_exact (Number_of_BigInt 1700000000123)
           (Number_of_BigInt 1420070400000) 1700000000123 1420070400000).
  - reflexivity.
  - reflexivity.
  - unfold MAX_SAFE_INTEGER. lia.
  - unfold MAX_SAFE_INTEGER. lia.
  - unfold counter_in_range. simpl. lia.
Defined.

(** The round trip of a non-zero integral number when the number and its
    distance to the epoch are safe integers. *)
Lemma roundtrip_within_safe (t : number) (z : Z) (w : world) :
  valid t = true -> integral_value t = Some z -> z <> 0 ->
  safe z -> safe (z - EPOCH) -> counter_in_range w ->
  eval (roundtrip t) w = Returned t.
Proof.
  intros Hv Hz Nz Sz Sd Hw.
  pose proof (embedded_range (increment w) (proj1 Hw)) as Hi.
  unfold eval, roundtrip, bind. rewrite (generate_integral t z w Hz).
  unfold deconstruct, bind, lift, ret. rewrite BigInt_of_String_toString.
  cbn [fst Typings.timestamp]. rewrite shiftr_compose by lia.
  rewrite add_exact; [| exact Sd | safe_bound |];
    replace (z - EPOCH + EPOCH) with z by lia; [| exact Sz].
  f_equal. symmetry. now apply valid_integral.
Qed.

(** X9: a timestamp before the epoch is not refused. For every non-zero
    integral number [t] below the epoch, down to -8.64e15, [generate]
    returns the decimal string of a negative integer, which starts with
    ['-'], and [deconstruct(generate(t)).timestamp] is still [t]. *)
Theorem roundtrip_before_epoch (t : number) (z : Z) (w : world) :
  valid t = true -> integral_value t = Some z -> z <> 0 ->
  - 8640000000000000 <= z < EPOCH -> counter_in_range w ->
  (exists rest, eval (generate (VNumber t)) w = Returned (String "-" rest)) /\
  (exists n, eval (generated_integer t) w = Returned n /\ n < 0) /\
  eval (roundtrip t) w = Returned t.
Proof.
  intros Hv Hz Nz Hr Hw. unfold EPOCH in Hr.
  pose proof (embedded_range (increment w) (proj1 Hw)) as Hi.
  assert (Hneg : compose z (embedded (increment w)) < 0).
  { rewrite compose_sum by lia. unfold EPOCH.
    change (2 ^ 22) with 4194304. change (2 ^ 17) with 131072. lia. }
  split; [| split].
  - unfold eval. rewrite (generate_integral t z w Hz). cbn [fst].
    destruct (compose z (embedded (increment w))) as [| p | p]; try lia.
    eexists. reflexivity.
  - exists (compose z (embedded (increment w))).
    split; [now apply generated_integer_integral | exact Hneg].
  - apply roundtrip_within_safe with (z := z); try assumption; safe_bound.
Qed.

Lemma roundtrip_before_epoch_witness :
  (exists rest,
     eval (generate (VNumber (Number_of_BigInt 1000000000000))) (initial NaN)
     = Returned (String "-" rest)) /\
  (exists n, eval (generated_integer (Number_of_BigInt 1000000000000)) (initial NaN)
             = Returned n /\ n < 0) /\
  eval (roundtrip (Number_of_BigInt 1000000000000)) (initial NaN)
  = Returned (Number_of_BigInt 1000000000000).
Proof.
  apply (roundtrip_before_epoch (Number_of_BigInt 1000000000000) 1000000000000).
  - reflexivity.
  - reflexivity.
  - lia.
  - unfold EPOCH. lia.
  - unfold counter_in_range. simpl. lia.
Defined.

(** X10: decoded timestamps follow the order of the snowflakes: for valid
    snowflakes [a] and [b] whose integers are in order, the timestamps that
    [getTimestamp] returns are integers in the same order. *)
Theorem getTimestamp_monotone (a b : string) (za zb : Z) (w : world) :
  valid_snowflake a = true -> valid_snowflake b = true ->
  StringToBigInt a = Some za -> StringToBigInt b = Some zb -> za <= zb ->
  exists ta tb,
    eval (getTimestamp a) w = Returned (Number_of_BigInt ta) /\
    eval (getTimestamp b) w = Returned (Number_of_BigInt tb) /\
    EPOCH <= ta <= tb.
Proof.
  unfold valid_snowflake. intros Ha Hb Ea Eb Hle. rewrite Ea in Ha. rewrite Eb in Hb.
  apply andb_true_iff in Ha, Hb. destruct Ha as [Ha0 Ha1], Hb as [Hb0 Hb1].
  apply Z.leb_le in Ha0, Hb0. apply Z.ltb_lt in Ha1, Hb1.
  assert (Hq : forall z, 0 <= z < 2 ^ 64 -> 0 <= Z.shiftr z 22 < 2 ^ 42).
  { intros z Hz. rewrite Z.shiftr_div_pow2 by lia. split; [apply Z.div_pos; lia |].
    apply Z.div_lt_upper_bound; lia. }
  pose proof (Hq za (conj Ha0 Ha1)). pose proof (Hq zb (conj Hb0 Hb1)).
  assert (Hm : Z.shiftr za 22 <= Z.shiftr zb 22).
  { rewrite !Z.shiftr_div_pow2 by lia. apply Z.div_le_mono; lia. }
  exists (Z.shiftr za 22 + EPOCH), (Z.shiftr zb 22 + EPOCH).
  unfold eval. rewrite (getTimestamp_read a za w Ea), (getTimestamp_read b zb w Eb).
  cbn [fst]. rewrite !add_exact by safe_bound.
  repeat split; lia.
Qed.

Lemma getTimestamp_monotone_witness :
  exists ta tb,
    eval (getTimestamp "131072") (initial NaN) = Returned (Number_of_BigInt ta) /\
    eval (getTimestamp "4194435072") (initial NaN) = Returned (Number_of_BigInt tb) /\
    EPOCH <= ta <= tb.
Proof.
  apply (getTimestamp_monotone "131072" "4194435072" 131072 4194435072 (initial NaN));
    try reflexivity. lia.
Defined.

(** *** Runs from any state of the counter *)

(** X11: in a run of calls with the same integral timestamp, from whatever
    state of the counter within its range, two calls return the same
    snowflake exactly when their positions in the run differ by a multiple
    of 4095. So any 4095 calls in a row return different snowflakes, and
    every call returns again what the call 4095 places earlier returned. *)
Theorem run_period_4095 (n : nat) (t : number) (b : Z) (w : world) :
  integral_value t = Some b -> counter_in_range w ->
  exists l, eval (generate_many n (VNumber t)) w = Returned l /\
            List.length l = n /\
            forall i j, (i < n)%nat -> (j < n)%nat ->
              (nth i l EmptyString = nth j l EmptyString <->
               (i mod 4095 = j mod 4095)%nat).
Proof.
  intros Hb Hw. unfold counter_in_range in Hw.
  pose proof (generate_many_integral n t b w Hb Hw) as Hl.
  set (F := fun k => BigInt_toString
                       (compose b ((increment w + Z.of_nat k) mod 4095))) in Hl.
  exists (map F (seq 0 n)). split; [exact Hl |].
  split; [now rewrite length_map, length_seq |].
  intros i j Hi Hj.
  rewrite !(nth_indep (map F (seq 0 n)) EmptyString (F 0%nat))
    by (rewrite length_map, length_seq; lia).
  rewrite !map_nth, !seq_nth by lia. cbn [Nat.add]. unfold F.
  assert (Hmod : forall k, 0 <= (increment w + Z.of_nat k) mod 4095 < 2 ^ 12)
    by (intros k; pose proof (Z.mod_pos_bound (increment w + Z.of_nat k) 4095); lia).
  assert (Hnat : (i mod 4095 = j mod 4095)%nat <->
                 Z.of_nat i mod 4095 = Z.of_nat j mod 4095).
  { change 4095 with (Z.of_nat 4095). rewrite <- !Nat2Z.inj_mod.
    split; [congruence | apply Nat2Z.inj]. }
  rewrite Hnat. split.
  - intros E. apply BigInt_toString_inj in E.
    apply (f_equal (fun x => Z.land x 4095)) in E.
    rewrite !land_compose in E by apply Hmod.
    revert E. Z.div_mod_to_equations. lia.
  - intros E. do 2 f_equal. revert E. Z.div_mod_to_equations. lia.
Qed.

Lemma run_period_4095_witness :
  exists l,
    eval (generate_many 3 (VNumber (Number_of_BigInt 1420070401000)))
         {| increment := 4094; clock := NaN |} = Returned l /\
    List.length l = 3%nat /\
    forall i j, (i < 3)%nat -> (j < 3)%nat ->
      (nth i l EmptyString = nth j l EmptyString <-> (i mod 4095 = j mod 4095)%nat).
Proof.
  apply (run_period_4095 3 (Number_of_BigInt 1420070401000) 1420070401000
           {| increment := 4094; clock := NaN |}).
  - reflexivity.
  - unfold counter_in_range. simpl. lia.
Defined.

(** *** The date of a deconstructed snowflake *)

Lemma integral_finite (x : number) (z : Z) :
  integral_value x = Some z -> finite x = true.
Proof. destruct x; simpl; congruence. Qed.

Lemma truncate_integral (x : number) (z : Z) :
  integral_value x = Some z -> truncate x = z.
Proof.
  destruct x as [s | s | | s m e]; unfold integral_value, truncate;
    try congruence.
  destruct (0 <=? e); [congruence |].
  destruct (Zpos m mod 2 ^ (- e) =? 0); congruence.
Qed.

Lemma exceeds_integral (bound : Z) (x : number) (z : Z) :
  0 <= bound -> integral_value x = Some z ->
  exceeds bound x = (bound <? Z.abs z).
Proof.
  intros Hb. destruct x as [s | s | | s m e]; unfold integral_value, exceeds;
    try congruence.
  - intros [= <-]. symmetry. apply Z.ltb_ge. simpl. exact Hb.
  - destruct (0 <=? e) eqn:He.
    + intros Hi. apply Z.leb_le in He.
      assert (Ez : z = cond_Zopp s (Zpos m * 2 ^ e)) by congruence. subst z.
      assert (0 < Zpos m * 2 ^ e)
        by (apply Z.mul_pos_pos; [lia | apply Z.pow_pos_nonneg; lia]).
      set (v := Zpos m * 2 ^ e) in *.
      f_equal. destruct s; unfold cond_Zopp; lia.
    + apply Z.leb_gt in He.
      assert (Hp : 0 < 2 ^ (- e)) by (apply Z.pow_pos_nonneg; lia).
      destruct (Zpos m mod 2 ^ (- e) =? 0) eqn:Hm; [| congruence].
      apply Z.eqb_eq in Hm. intros Hi.
      assert (Ez : z = cond_Zopp s (Zpos m / 2 ^ (- e))) by congruence. subst z.
      pose proof (Z.div_mod (Zpos m) (2 ^ (- e)) ltac:(lia)) as Hdm.
      rewrite Hm, Z.add_0_r in Hdm.
      set (k := Zpos m / 2 ^ (- e)) in *.
      assert (Hk : 0 <= k) by (apply Z.div_pos; lia).
      replace (Z.abs (cond_Zopp s k)) with k
        by (destruct s; unfold cond_Zopp; lia).
      rewrite Hdm, (Z.mul_comm (2 ^ (- e)) k).
      destruct (bound <? k) eqn:Hbk.
      * apply Z.ltb_lt in Hbk. apply Z.ltb_lt.
        now apply Z.mul_lt_mono_pos_r.
      * apply Z.ltb_ge in Hbk. apply Z.ltb_ge.
        now apply Z.mul_le_mono_nonneg_r; [lia |].
Qed.

(** TimeClip on an integral number. *)
Lemma TimeClip_integral (x : number) (z : Z) :
  integral_value x = Some z ->
  TimeClip x = if 8640000000000000 <? Z.abs z then NaN else Number_of_BigInt z.
Proof.
  intros Hz. unfold TimeClip.
  rewrite (integral_finite x z Hz), (exceeds_integral 8640000000000000 x z ltac:(lia) Hz),
    (truncate_integral x z Hz).
  reflexivity.
Qed.

(** X12: the date of a deconstructed snowflake is its timestamp as long as
    the timestamp is within the range of Date, and the invalid Date beyond.
    For every string that reads as an integer [z] such that [z >> 22] and
    [t = (z >> 22) + EPOCH] are safe integers, the time value of
    [deconstruct(s).date] is [t] when [|t| <= 8.64e15], and NaN otherwise. *)
Theorem date_of_deconstruct (s : string) (z : Z) (w : world) :
  StringToBigInt s = Some z ->
  safe (Z.shiftr z 22) -> safe (Z.shiftr z 22 + EPOCH) ->
  exists d, eval (deconstruct s) w = Returned d /\
            Typings.timestamp d = Number_of_BigInt (Z.shiftr z 22 + EPOCH) /\
            date d = VDate (if 8640000000000000 <? Z.abs (Z.shiftr z 22 + EPOCH)
                            then NaN
                            else Number_of_BigInt (Z.shiftr z 22 + EPOCH)).
Proof.
  intros Hs Sq St. rewrite (deconstruct_read s z w Hs).
  eexists. split; [reflexivity |]. unfold date. cbn [Typings.timestamp].
  rewrite add_exact; [| exact Sq | safe_bound | exact St].
  split; [reflexivity |].
  f_equal. now apply TimeClip_integral, integral_value_exact.
Qed.

Lemma date_of_deconstruct_witness :
  safe (Z.shiftr 36238786560000000000000 22) /\
  exists d, eval (deconstruct "36238786560000000000000") (initial NaN) = Returned d /\
            Typings.timestamp d = Number_of_BigInt 8641420070400000 /\
            date d = VDate NaN.
Proof.
  split; [vm_compute; reflexivity |].
  apply (date_of_deconstruct "36238786560000000000000" 36238786560000000000000
           (initial NaN)); vm_compute; reflexivity.
Defined.

Lemma deconstruct_run (s : string) (z : Z) (w : world) :
  StringToBigInt s = Some z ->
  deconstruct s w
  = (Returned {| Typings.timestamp :=
                   add (Number_of_BigInt (Z.shiftr z 22)) (Number_of_BigInt EPOCH);
                 Typings.workerId := Number_of_BigInt (Z.land (Z.shiftr z 17) 31);
                 Typings.processId := Number_of_BigInt (Z.land (Z.shiftr z 12) 31);
                 Typings.increment := Number_of_BigInt (Z.land z 4095);
                 Typings.binary := padStart 64 "0" (BigInt_toString2 z) |}, w).
Proof.
  intros Hz. unfold deconstruct, bind, lift, ret, BigInt_of_String.
  now rewrite Hz.
Qed.

(** X13: the date of a valid snowflake can be generated from again. For a
    valid snowflake [s] and the counter within its range,
    [deconstruct(s).date] is the valid Date of [deconstruct(s).timestamp],
    [generate] accepts it, and the timestamp of the snowflake it returns is
    the timestamp of [s]. *)
Theorem regenerate_timestamp (s : string) (w : world) :
  valid_snowflake s = true -> counter_in_range w ->
  exists d, eval (deconstruct s) w = Returned d /\
            date d = VDate (Typings.timestamp d) /\
            eval (regenerate s) w = Returned (Typings.timestamp d) /\
            eval (regenerate s) w = eval (getTimestamp s) w.
Proof.
  unfold valid_snowflake. intros Hs Hw.
  destruct (StringToBigInt s) as [z |] eqn:Hz; [| discriminate Hs].
  apply andb_true_iff in Hs. destruct Hs as [H0 H1].
  apply Z.leb_le in H0. apply Z.ltb_lt in H1.
  assert (Hq : 0 <= Z.shiftr z 22 < 2 ^ 42).
  { rewrite Z.shiftr_div_pow2 by lia. split; [apply Z.div_pos; lia |].
    apply Z.div_lt_upper_bound; lia. }
  pose proof (embedded_range (increment w) (proj1 Hw)) as Hi.
  set (time := Z.shiftr z 22 + EPOCH).
  assert (Ht : add (Number_of_BigInt (Z.shiftr z 22)) (Number_of_BigInt EPOCH)
               = Number_of_BigInt time) by (apply add_exact; safe_bound).
  assert (Hint : integral_value (Number_of_BigInt time) = Some time)
    by (apply integral_value_exact; unfold time; safe_bound).
  assert (Hclip : TimeClip (Number_of_BigInt time) = Number_of_BigInt time).
  { rewrite (TimeClip_integral _ time Hint).
    replace (8640000000000000 <? Z.abs time) with false; [reflexivity |].
    symmetry. apply Z.ltb_ge. unfold time, EPOCH. lia. }
  unfold eval, regenerate, bind.
  rewrite (getTimestamp_read s z w Hz), (deconstruct_run s z w Hz), Ht.
  eexists. split; [reflexivity |].
  unfold date. cbn [Typings.timestamp fst]. rewrite Hclip.
  split; [reflexivity |].
  rewrite generate_Date, (generate_integral _ time w Hint).
  rewrite getTimestamp_generated by (unfold time; safe_bound).
  split; reflexivity.
Qed.

Lemma regenerate_timestamp_witness :
  exists d, eval (deconstruct "4194435072") (initial NaN) = Returned d /\
            date d = VDate (Typings.timestamp d) /\
            eval (regenerate "4194435072") (initial NaN)
            = Returned (Typings.timestamp d) /\
            eval (regenerate "4194435072") (initial NaN)
            = eval (getTimestamp "4194435072") (initial NaN).
Proof.
  apply (regenerate_timestamp "4194435072" (initial NaN)).
  - reflexivity.
  - unfold counter_in_range. simpl. lia.
Defined.

(** *** Failures and white space *)

(** X14: [calculateDuration] fails exactly when one of its two strings is
    not read by [BigInt], and the error is then the SyntaxError of [BigInt],
    whatever the other string is. *)
Theorem calculateDuration_fails_iff (a b : string) (w : world) :
  ((exists e, eval (calculateDuration a b) w = Thrown e) <->
   StringToBigInt a = None \/ StringToBigInt b = None) /\
  (forall e, eval (calculateDuration a b) w = Thrown e -> e = SyntaxError).
Proof.
  unfold eval, calculateDuration, getTimestamp, bind, lift, ret, BigInt_of_String.
  destruct (StringToBigInt a) as [za |]; destruct (StringToBigInt b) as [zb |];
    cbn [fst]; split.
  - split; [intros [e H]; discriminate H | intros [H | H]; discriminate H].
  - intros e H. discriminate H.
  - split; [auto | intros _; eexists; reflexivity].
  - intros e H. congruence.
  - split; [auto | intros _; eexists; reflexivity].
  - intros e H. congruence.
  - split; [auto | intros _; eexists; reflexivity].
  - intros e H. congruence.
Qed.

Lemma trim_start_whitespace (s : string) :
  all_chars is_whitespace s = true -> trim_start s = EmptyString.
Proof.
  induction s as [| c s IH]; simpl; [reflexivity |].
  intros H. apply andb_true_iff in H. destruct H as [Hc Hs].
  rewrite Hc. now apply IH.
Qed.

Lemma trim_end_whitespace (s : string) :
  all_chars is_whitespace s = true -> trim_end s = EmptyString.
Proof.
  induction s as [| c s IH]; simpl; [reflexivity |].
  intros H. apply andb_true_iff in H. destruct H as [Hc Hs].
  now rewrite (IH Hs), Hc.
Qed.

Lemma trim_start_prefix (pre s : string) :
  all_chars is_whitespace pre = true -> trim_start (pre ++ s) = trim_start s.
Proof.
  induction pre as [| c pre IH]; simpl; [reflexivity |].
  intros H. apply andb_true_iff in H. destruct H as [Hc Hs].
  rewrite Hc. now apply IH.
Qed.

Lemma trim_end_suffix (s post : string) :
  all_chars is_whitespace post = true -> trim_end (s ++ post) = trim_end s.
Proof.
  intros H. induction s as [| c s IH]; simpl.
  - now apply trim_end_whitespace.
  - now rewrite IH.
Qed.

Lemma trim_padded (pre s post : string) :
  all_chars is_whitespace pre = true -> all_chars is_whitespace post = true ->
  trim (pre ++ s ++ post) = trim s.
Proof.
  intros Hpre Hpost. unfold trim. rewrite (trim_start_prefix pre _ Hpre).
  induction s as [| c s IH]; simpl.
  - now rewrite (trim_start_whitespace post Hpost).
  - destruct (is_whitespace c); [exact IH |].
    exact (trim_end_suffix (String c s) post Hpost).
Qed.

(** X15: white space around a snowflake does not matter. For every string
    [s] and all strings [pre] and [post] of white space only, [deconstruct]
    and [getTimestamp] return for [pre + s + post] what they return for
    [s], the same error included. *)
Theorem deconstruct_ignores_whitespace (pre s post : string) (w : world) :
  all_chars is_whitespace pre = true -> all_chars is_whitespace post = true ->
  eval (deconstruct (pre ++ s ++ post)) w = eval (deconstruct s) w /\
  eval (getTimestamp (pre ++ s ++ post)) w = eval (getTimestamp s) w.
Proof.
  intros Hpre Hpost.
  assert (H : StringToBigInt (pre ++ s ++ post) = StringToBigInt s)
    by (unfold StringToBigInt; now rewrite trim_padded).
  unfold eval, deconstruct, getTimestamp, bind, lift, ret, BigInt_of_String.
  now rewrite H.
Qed.

Lemma deconstruct_ignores_whitespace_witness :
  eval (deconstruct ("  " ++ "4194435072" ++ " ")) (initial NaN)
  = eval (deconstruct "4194435072") (initial NaN) /\
  eval (getTimestamp ("  " ++ "4194435072" ++ " ")) (initial NaN)
  = eval (getTimestamp "4194435072") (initial NaN).
Proof.
  apply (deconstruct_ignores_whitespace "  " "4194435072" " " (initial NaN));
    reflexivity.
Defined.

(** *** Which generated snowflakes are valid *)

(** X16: a generated snowflake fits in 64 unsigned bits only for timestamps
    in a window of 2^42 milliseconds from the epoch. For an integral
    timestamp [t] and the counter within its range, [generate] returns the
    decimal string of an integer [z], which reads back as [z]. The string is
    a valid snowflake exactly when [EPOCH <= t < EPOCH + 2^42]; [z] is
    negative exactly when [t < EPOCH], and [z] is 2^64 or more, an integer
    of more than 64 bits, exactly when [EPOCH + 2^42 <= t]. *)
Theorem generated_valid_iff (t : number) (b : Z) (w : world) :
  integral_value t = Some b -> counter_in_range w ->
  exists s z, eval (generate (VNumber t)) w = Returned s /\
              s = BigInt_toString z /\ StringToBigInt s = Some z /\
              (valid_snowflake s = true <-> EPOCH <= b < EPOCH + 2 ^ 42) /\
              (z < 0 <-> b < EPOCH) /\
              (2 ^ 64 <= z <-> EPOCH + 2 ^ 42 <= b).
Proof.
  intros Hb Hw.
  pose proof (embedded_range (increment w) (proj1 Hw)) as Hi.
  unfold eval. rewrite (generate_integral t b w Hb). cbn [fst].
  exists (BigInt_toString (compose b (embedded (increment w)))),
         (compose b (embedded (increment w))).
  split; [reflexivity |]. split; [reflexivity |].
  split; [apply StringToBigInt_toString |].
  unfold valid_snowflake. rewrite StringToBigInt_toString.
  rewrite compose_sum by lia.
  rewrite andb_true_iff, Z.leb_le, Z.ltb_lt.
  change (2 ^ 64) with 18446744073709551616. change (2 ^ 42) with 4398046511104.
  change (2 ^ 22) with 4194304. change (2 ^ 17) with 131072. lia.
Qed.

Lemma generated_valid_iff_witness :
  exists s z,
    eval (generate (VNumber (Number_of_BigInt 5818116911104))) (initial NaN)
    = Returned s /\
    s = BigInt_toString z /\ StringToBigInt s = Some z /\
    (valid_snowflake s = true <-> EPOCH <= 5818116911104 < EPOCH + 2 ^ 42) /\
    (z < 0 <-> 5818116911104 < EPOCH) /\
    (2 ^ 64 <= z <-> EPOCH + 2 ^ 42 <= 5818116911104).
Proof.
  apply (generated_valid_iff (Number_of_BigInt 5818116911104) 5818116911104
           (initial NaN)).
  - reflexivity.
  - unfold counter_in_range. simpl. lia.
Defined.

(** The duration of two valid snowflakes is the distance of their
    millisecond parts. *)
Lemma calculateDuration_valid (a b : string) (za zb : Z) (w : world) :
  StringToBigInt a = Some za -> StringToBigInt b = Some zb ->
  0 <= za < 2 ^ 64 -> 0 <= zb < 2 ^ 64 ->
  eval (calculateDuration a b) w
  = Returned (Number_of_BigInt (Z.abs (Z.shiftr za 22 - Z.shiftr zb 22))).
Proof.
  intros Ea Eb Ha Hb.
  assert (Hq : forall z, 0 <= z < 2 ^ 64 -> 0 <= Z.shiftr z 22 < 2 ^ 42).
  { intros z Hz. rewrite Z.shiftr_div_pow2 by lia. split; [apply Z.div_pos; lia |].
    apply Z.div_lt_upper_bound; lia. }
  pose proof (Hq za Ha). pose proof (Hq zb Hb).
  unfold eval, calculateDuration, bind, ret.
  rewrite (getTimestamp_read a za w Ea), (getTimestamp_read b zb w Eb).
  cbn [fst]. rewrite !add_exact by safe_bound.
  rewrite sub_exact, abs_exact by safe_bound. f_equal. f_equal. lia.
Qed.

(** X17: the duration of two valid snowflakes is 0 exactly when they carry
    the same millisecond, that is when their integers agree from bit 22
    upwards; worker, process and increment play no part. *)
Theorem calculateDuration_zero_iff (a b : string) (za zb : Z) (w : world) :
  valid_snowflake a = true -> valid_snowflake b = true ->
  StringToBigInt a = Some za -> StringToBigInt b = Some zb ->
  (eval (calculateDuration a b) w = Returned (Number_of_BigInt 0) <->
   Z.shiftr za 22 = Z.shiftr zb 22).
Proof.
  unfold valid_snowflake. intros Ha Hb Ea Eb. rewrite Ea in Ha. rewrite Eb in Hb.
  apply andb_true_iff in Ha, Hb. destruct Ha as [Ha0 Ha1], Hb as [Hb0 Hb1].
  apply Z.leb_le in Ha0, Hb0. apply Z.ltb_lt in Ha1, Hb1.
  rewrite (calculateDuration_valid a b za zb w Ea Eb) by lia.
  assert (Hq : forall z, 0 <= z < 2 ^ 64 -> 0 <= Z.shiftr z 22 < 2 ^ 42).
  { intros z Hz. rewrite Z.shiftr_div_pow2 by lia. split; [apply Z.div_pos; lia |].
    apply Z.div_lt_upper_bound; lia. }
  pose proof (Hq za (conj Ha0 Ha1)). pose proof (Hq zb (conj Hb0 Hb1)).
  split.
  - intros Hd.
    assert (E : Number_of_BigInt (Z.abs (Z.shiftr za 22 - Z.shiftr zb 22))
                = Number_of_BigInt 0) by congruence.
    apply (f_equal integral_value) in E.
    rewrite !integral_value_exact in E by safe_bound.
    assert (Z.abs (Z.shiftr za 22 - Z.shiftr zb 22) = 0) by congruence. lia.
  - intros ->. now rewrite Z.sub_diag.
Qed.

Lemma calculateDuration_zero_iff_witness :
  eval (calculateDuration "4194435072" "4194439999") (initial NaN)
  = Returned (Number_of_BigInt 0) <->
  Z.shiftr 4194435072 22 = Z.shiftr 4194439999 22.
Proof.
  apply (calculateDuration_zero_iff "4194435072" "4194439999"
           4194435072 4194439999 (initial NaN)); reflexivity.
Defined.
